(** * AudioBridge PC receiver: sequence tracking, jitter buffer, playback

    A shallow embedding of [receiver.py].  The module-level globals of the
    script ([last_seq], [dropped_packets], [reordered_packets],
    [jitter_buffer], [buffer_ready], [running]) become one record that is
    threaded through one iteration of [receive_loop], one invocation of
    [audio_callback] and [shutdown].  Python integers are unbounded, so
    sequence numbers and counters are [Z]; [len] results are [nat]. *)

From Stdlib Require Import ZArith List Bool Lia.
From Stdlib Require Import Strings.Byte.
From Stdlib Require Strings.String.
Import ListNotations.
Import String.StringSyntax.
Delimit Scope string_scope with string.

Open Scope Z_scope.

(** ** Configuration and derived constants *)

Definition CHANNELS : nat := 2.
Definition BUFFER_CHUNKS : nat := 2.
Definition HEADER_SIZE : nat := 4.

(** [deque(maxlen=BUFFER_CHUNKS * 4)] *)
Definition MAXLEN : nat := (BUFFER_CHUNKS * 4)%nat.

(** ** Wire format *)

Definition byte_val (b : byte) : Z := Z.of_N (Byte.to_N b).

Definition byte_of_Z (z : Z) : byte :=
  match Byte.of_N (Z.to_N (z mod 256)) with
  | Some b => b
  | None => x00
  end.

(** [struct.unpack(">I", bs)[0]]: most significant byte first. *)
Definition unpack_be32 (bs : list byte) : Z :=
  fold_left (fun acc b => acc * 256 + byte_val b) bs 0.

(** The sender's [struct.pack(">I", s)], used to build packets. *)
Definition pack_be32 (s : Z) : list byte :=
  [byte_of_Z (s / 16777216); byte_of_Z (s / 65536); byte_of_Z (s / 256); byte_of_Z s].

(** One signed 16-bit little-endian sample. *)
Definition int16_le (lo hi : byte) : Z :=
  let u := byte_val lo + 256 * byte_val hi in
  if 32768 <=? u then u - 65536 else u.

(** [np.frombuffer(pcm_bytes, dtype=np.int16)]: [None] stands for the
    [ValueError] numpy raises when the buffer size is not a multiple of
    the element size. *)
Fixpoint frombuffer (bs : list byte) : option (list Z) :=
  match bs with
  | [] => Some []
  | [_] => None
  | lo :: hi :: rest =>
      match frombuffer rest with
      | Some samples => Some (int16_le lo hi :: samples)
      | None => None
      end
  end.

(** [samples.reshape((rows, cols))] on a flat array of [rows * cols] samples. *)
Fixpoint reshape (rows cols : nat) (samples : list Z) : list (list Z) :=
  match rows with
  | O => []
  | S r => firstn cols samples :: reshape r cols (skipn cols samples)
  end.

(** A queued block of audio: an array of shape [(frames, CHANNELS)];
    [len(chunk)] is its number of rows. *)
Definition Chunk := list (list Z).

(** Lines 156-168 of [receive_loop]: the decode of the bytes after the
    header.  [None] is each of the three [continue]s. *)
Definition decode_pcm (pcm_bytes : list byte) : option Chunk :=
  if (length pcm_bytes <? 2)%nat then None
  else
    match frombuffer pcm_bytes with
    | None => None
    | Some samples =>
        let frames := (length samples / CHANNELS)%nat in
        if (frames =? 0)%nat then None
        else Some (reshape frames CHANNELS (firstn (frames * CHANNELS) samples))
    end.

(** ** The bounded deque *)

(** [deque.append] with [maxlen]: append on the right, then drop one
    entry on the left when the bound is exceeded. *)
Definition deque_append {A} (maxlen : nat) (x : A) (q : list A) : list A :=
  let q' := q ++ [x] in
  if (maxlen <? length q')%nat then tl q' else q'.

(** [deque.appendleft] with [maxlen]: insert on the left, then drop one
    entry on the right when the bound is exceeded. *)
Definition deque_appendleft {A} (maxlen : nat) (x : A) (q : list A) : list A :=
  let q' := x :: q in
  if (maxlen <? length q')%nat then removelast q' else q'.

(** The guarded [popleft] of [audio_callback]: [None] when the deque is
    empty (the source tests [if jitter_buffer:] first, so [IndexError] is
    never raised). *)
Definition deque_popleft {A} (q : list A) : option A * list A :=
  match q with
  | [] => (None, [])
  | x :: q' => (Some x, q')
  end.

(** ** Receiver state *)

Record State := mkState {
  last_seq : Z;
  dropped_packets : Z;
  reordered_packets : Z;
  jitter_buffer : list Chunk;
  buffer_ready : bool;
  running : bool
}.

Definition initial_state : State :=
  {| last_seq := -1; dropped_packets := 0; reordered_packets := 0;
     jitter_buffer := []; buffer_ready := false; running := true |}.

Definition set_last_seq (v : Z) (st : State) : State :=
  {| last_seq := v; dropped_packets := dropped_packets st;
     reordered_packets := reordered_packets st;
     jitter_buffer := jitter_buffer st; buffer_ready := buffer_ready st;
     running := running st |}.

Definition add_dropped (n : Z) (st : State) : State :=
  {| last_seq := last_seq st; dropped_packets := dropped_packets st + n;
     reordered_packets := reordered_packets st;
     jitter_buffer := jitter_buffer st; buffer_ready := buffer_ready st;
     running := running st |}.

Definition add_reordered (n : Z) (st : State) : State :=
  {| last_seq := last_seq st; dropped_packets := dropped_packets st;
     reordered_packets := reordered_packets st + n;
     jitter_buffer := jitter_buffer st; buffer_ready := buffer_ready st;
     running := running st |}.

Definition set_jitter_buffer (q : list Chunk) (st : State) : State :=
  {| last_seq := last_seq st; dropped_packets := dropped_packets st;
     reordered_packets := reordered_packets st;
     jitter_buffer := q; buffer_ready := buffer_ready st;
     running := running st |}.

Definition set_buffer_ready (st : State) : State :=
  {| last_seq := last_seq st; dropped_packets := dropped_packets st;
     reordered_packets := reordered_packets st;
     jitter_buffer := jitter_buffer st; buffer_ready := true;
     running := running st |}.

Definition set_running (v : bool) (st : State) : State :=
  {| last_seq := last_seq st; dropped_packets := dropped_packets st;
     reordered_packets := reordered_packets st;
     jitter_buffer := jitter_buffer st; buffer_ready := buffer_ready st;
     running := v |}.

(** ** Sequence tracking (lines 136-153 of [receive_loop]) *)

(** Which branch of the sequence-tracking block a packet takes. *)
Inductive Classification :=
| FirstPacket
| InOrder
| Gap (missed : Z)
| Reorder.

Definition track (st : State) (seq : Z) : Classification * State :=
  if 0 <=? last_seq st then
    let expected := Z.land (last_seq st + 1) 0xFFFFFFFF in
    if negb (seq =? expected) then
      let gap := Z.land (seq - last_seq st) 0xFFFFFFFF in
      if 0x7FFFFFFF <? gap then
        (Reorder, add_reordered 1 st)
      else
        let missed := gap - 1 in
        (Gap missed,
         set_last_seq seq (if 0 <? missed then add_dropped missed st else st))
    else (InOrder, set_last_seq seq st)
  else (FirstPacket, set_last_seq seq st).

(** ** One iteration of [receive_loop] on a datagram [data] *)

(** Lines 170-173: the append under [buffer_lock] and the ready latch. *)
Definition push (audio : Chunk) (st : State) : State :=
  let st' := set_jitter_buffer (deque_append MAXLEN audio (jitter_buffer st)) st in
  if (BUFFER_CHUNKS <=? length (jitter_buffer st'))%nat && negb (buffer_ready st')
  then set_buffer_ready st'
  else st'.

Definition receive_packet (st : State) (data : list byte) : State :=
  if (length data <? HEADER_SIZE)%nat then st
  else
    let seq := unpack_be32 (firstn HEADER_SIZE data) in
    let pcm_bytes := skipn HEADER_SIZE data in
    match track st seq with
    | (Reorder, st1) => st1
    | (_, st1) =>
        match decode_pcm pcm_bytes with
        | None => st1
        | Some audio => push audio st1
        end
    end.

(** The branch taken by a datagram, when it carries a header at all. *)
Definition classify (st : State) (data : list byte) : option Classification :=
  if (length data <? HEADER_SIZE)%nat then None
  else Some (fst (track st (unpack_be32 (firstn HEADER_SIZE data)))).

(** ** [audio_callback] *)

(** [outdata[:] = 0] on an output array of shape [(frames, CHANNELS)]. *)
Definition silence (frames : nat) : Chunk := repeat (repeat 0 CHANNELS) frames.

(** First critical section: the guarded [popleft]. *)
Definition callback_pop (st : State) : option Chunk * State :=
  let (chunk, q) := deque_popleft (jitter_buffer st) in
  (chunk, set_jitter_buffer q st).

(** The rest of the callback, with its second critical section on the
    push-back path.  Returns the state and the new contents of [outdata]. *)
Definition callback_emit (chunk : option Chunk) (frames : nat) (st : State)
  : State * Chunk :=
  match chunk with
  | Some c =>
      if (length c =? frames)%nat then (st, c)
      else if (frames <? length c)%nat then
        (set_jitter_buffer
           (deque_appendleft MAXLEN (skipn frames c) (jitter_buffer st)) st,
         firstn frames c)
      else (st, silence frames)
  | None => (st, silence frames)
  end.

Definition audio_callback (st : State) (frames : nat) : State * Chunk :=
  let (chunk, st1) := callback_pop st in
  callback_emit chunk frames st1.

(** ** [shutdown] *)

Definition shutdown (st : State) : State :=
  set_buffer_ready (set_running false st).

(** ** Sessions: interleavings of the two contexts and the stop request *)

Inductive Event :=
| Recv (data : list byte)
| Callback (frames : nat)
| Shutdown.

(** [receive_loop] tests [running] at the top of every iteration. *)
Definition step (st : State) (e : Event) : State :=
  match e with
  | Recv data => if running st then receive_packet st data else st
  | Callback frames => fst (audio_callback st frames)
  | Shutdown => shutdown st
  end.

Definition run (st : State) (evs : list Event) : State := fold_left step evs st.

(** ** Vocabulary for the statements *)

(** The tracker's part of the state. *)
Definition stats (st : State) : Z * Z * Z :=
  (last_seq st, dropped_packets st, reordered_packets st).

(** A datagram as the sender builds it: header, then PCM bytes. *)
Definition packet (seq : Z) (payload : list byte) : list byte :=
  pack_be32 seq ++ payload.

Definition WRAP : Z := 4294967296.

(** The receive context alone: one loop iteration per datagram. *)
Definition receive_all (st : State) (pkts : list (list byte)) : State :=
  fold_left receive_packet pkts st.

(** The states the receive context goes through, the starting one first. *)
Fixpoint trace (st : State) (pkts : list (list byte)) : list State :=
  match pkts with
  | [] => [st]
  | p :: ps => st :: trace (receive_packet st p) ps
  end.

(** The tracking block alone, over a list of sequence numbers. *)
Definition track_all (st : State) (seqs : list Z) : State :=
  fold_left (fun st seq => snd (track st seq)) seqs st.

(** [n] successive pops (first critical section of the callback). *)
Fixpoint pops (n : nat) (st : State) : list (option Chunk) * State :=
  match n with
  | O => ([], st)
  | S k =>
      let (chunk, st1) := callback_pop st in
      let (chunks, st2) := pops k st1 in
      (chunk :: chunks, st2)
  end.

(** Successive invocations of the callback, one per requested frame
    count, with what each one wrote to [outdata]. *)
Fixpoint callbacks (st : State) (requests : list nat) : State * list Chunk :=
  match requests with
  | [] => (st, [])
  | frames :: rest =>
      let (st1, out) := audio_callback st frames in
      let (st2, outs) := callbacks st1 rest in
      (st2, out :: outs)
  end.

(** A session that has not been stopped. *)
Definition is_shutdown (e : Event) : bool :=
  match e with
  | Shutdown => true
  | _ => false
  end.

Definition streaming (evs : list Event) : Prop :=
  forallb (fun e => negb (is_shutdown e)) evs = true.

(** ** The end-to-end scenario

    Sequence numbers [0..99] with [37] and [52] never sent, and a stale
    datagram numbered [58] arriving right after [59] and [60]. *)

Definition Z_range (lo : Z) (n : nat) : list Z :=
  map (fun i => lo + Z.of_nat i) (seq 0 n).

Definition before_stale : list Z := Z_range 0 37 ++ Z_range 38 14 ++ Z_range 53 8.
Definition after_stale : list Z := Z_range 61 39.

Definition datagrams (pl : Z -> list byte) (seqs : list Z) : list (list byte) :=
  map (fun s => packet s (pl s)) seqs.

Definition scenario (pl : Z -> list byte) (stale_payload : list byte)
  : list (list byte) :=
  datagrams pl before_stale ++ [packet 58 stale_payload] ++ datagrams pl after_stale.

(** ** Derived constants (lines 46-49) and the stream parameters of [main] *)

Definition SAMPLE_RATE : N := 48000.
Definition CHUNK_MS : N := 10.
Definition BYTES_PER_SAMPLE : N := 2.
Definition CHUNK_SAMPLES : N := (SAMPLE_RATE * N.of_nat CHANNELS * CHUNK_MS / 1000)%N.
Definition CHUNK_BYTES : N := (CHUNK_SAMPLES * BYTES_PER_SAMPLE)%N.

(** [blocksize=CHUNK_SAMPLES // CHANNELS]: frames per callback. *)
Definition BLOCKSIZE : N := (CHUNK_SAMPLES / N.of_nat CHANNELS)%N.

(** [main], lines 245-249: [buffer_ready.wait()] returns once the latch is
    set, and the output stream is opened unless [running] is false by then. *)
Definition playback_starts (st : State) : bool := buffer_ready st && running st.

(** ** The sender's side of the PCM format, to build payloads *)

(** One sample as two bytes, low byte first (two's complement). *)
Definition int16_bytes (z : Z) : list byte := [byte_of_Z z; byte_of_Z (z / 256)].

Definition encode_pcm (audio : Chunk) : list byte :=
  flat_map int16_bytes (concat audio).

Definition int16_range (z : Z) : Prop := -32768 <= z < 32768.

(** A block of audio as the playback side needs it: at least one row,
    [CHANNELS] samples in every row. *)
Definition well_shaped (c : Chunk) : Prop :=
  c <> [] /\ Forall (fun row => length row = CHANNELS) c.

(** Successive pushes of decoded blocks, without any pop in between. *)
Definition pushes (st : State) (audios : list Chunk) : State :=
  fold_left (fun st audio => push audio st) audios st.

(** A stream of sequence numbers given by its first number and the
    distance from each datagram to the next, wrapping at [2^32]. *)
Fixpoint seqs_from (s : Z) (steps : list Z) : list Z :=
  match steps with
  | [] => []
  | k :: steps' => (s + k) mod WRAP :: seqs_from ((s + k) mod WRAP) steps'
  end.

(** The numbers missing between consecutive datagrams of such a stream. *)
Definition missing (steps : list Z) : Z :=
  fold_right (fun k acc => (k - 1) + acc) 0 steps.



(** ** [get_local_ips]

    The two system queries are inputs: [addrinfo] is the list of [info[4][0]]
    that [getaddrinfo] yields ([None] when the first [try] block raises before
    its loop), [connected] is the address the connect trick reads back ([None]
    when the second [try] block raises). *)

(** Python's [needle in haystack] on strings. *)
Fixpoint str_in (needle haystack : String.string) : bool :=
  String.prefix needle haystack ||
  match haystack with
  | String.EmptyString => false
  | String.String _ rest => str_in needle rest
  end.

(** [if ip not in ips: ips.append(ip)] *)
Definition append_new (ips : list String.string) (ip : String.string)
  : list String.string :=
  if in_dec String.string_dec ip ips then ips else ips ++ [ip].

(** The test of line 73. *)
Definition ipv4_non_loopback (ip : String.string) : bool :=
  negb (String.prefix "127."%string ip) && negb (str_in ":"%string ip).

Definition get_local_ips (addrinfo : option (list String.string))
    (connected : option String.string) : list String.string :=
  let ips :=
    match addrinfo with
    | Some infos =>
        fold_left (fun ips ip => if ipv4_non_loopback ip then append_new ips ip else ips)
          infos []
    | None => []
    end in
  let ips :=
    match connected with
    | Some ip => append_new ips ip
    | None => ips
    end in
  match ips with
  | [] => ["(could not determine)"%string]
  | _ => ips
  end.

(** An address [get_local_ips] has found: one that [getaddrinfo] listed and
    that passes the test of line 73, or the one the connect trick read. *)
Definition found_ip (addrinfo : option (list String.string))
    (connected : option String.string) (ip : String.string) : Prop :=
  (exists infos, addrinfo = Some infos /\ In ip infos /\ ipv4_non_loopback ip = true) \/
  connected = Some ip.

(** * Properties *)

(** ** Wire format *)

Lemma byte_val_range (b : byte) : 0 <= byte_val b < 256.
Proof.
  unfold byte_val. pose proof (Byte.to_N_bounded b) as H.
  apply N2Z.inj_le in H. simpl in H. lia.
Qed.

Lemma byte_val_of_Z (z : Z) : byte_val (byte_of_Z z) = z mod 256.
Proof.
  unfold byte_val, byte_of_Z.
  assert (Hr : 0 <= z mod 256 < 256) by (apply Z.mod_pos_bound; lia).
  destruct (Byte.of_N (Z.to_N (z mod 256))) as [b|] eqn:E.
  - apply Byte.to_of_N in E. rewrite E. rewrite Z2N.id; lia.
  - apply Byte.of_N_None_iff in E. lia.
Qed.

Lemma unpack_be32_four (b0 b1 b2 b3 : byte) :
  unpack_be32 [b0; b1; b2; b3] =
  ((byte_val b0 * 256 + byte_val b1) * 256 + byte_val b2) * 256 + byte_val b3.
Proof. reflexivity. Qed.

Lemma unpack_be32_range (b0 b1 b2 b3 : byte) :
  0 <= unpack_be32 [b0; b1; b2; b3] < 4294967296.
Proof.
  rewrite unpack_be32_four.
  pose proof (byte_val_range b0). pose proof (byte_val_range b1).
  pose proof (byte_val_range b2). pose proof (byte_val_range b3). lia.
Qed.

(** What the sender packs is what the receiver unpacks. *)
Lemma unpack_pack_be32 (s : Z) :
  0 <= s < 4294967296 -> unpack_be32 (pack_be32 s) = s.
Proof.
  intros Hs. unfold pack_be32. rewrite unpack_be32_four.
  rewrite !byte_val_of_Z.
  rewrite (Z.mod_small (s / 16777216) 256)
    by (split; [apply Z.div_pos; lia | apply Z.div_lt_upper_bound; lia]).
  Z.to_euclidean_division_equations. lia.
Qed.

Lemma length_pack_be32 (s : Z) : length (pack_be32 s) = HEADER_SIZE.
Proof. reflexivity. Qed.

(** The masks of the source are reductions modulo [2^32]. *)
Lemma land_mask32 (a : Z) : Z.land a 0xFFFFFFFF = a mod 4294967296.
Proof. change 0xFFFFFFFF with (Z.ones 32). rewrite Z.land_ones by lia. reflexivity. Qed.

(** ** Sequence tracker *)

Lemma push_stats (audio : Chunk) (st : State) : stats (push audio st) = stats st.
Proof. unfold push. destruct (_ && _); reflexivity. Qed.

Lemma track_jitter_buffer (st : State) (seq : Z) :
  jitter_buffer (snd (track st seq)) = jitter_buffer st /\
  buffer_ready (snd (track st seq)) = buffer_ready st /\
  running (snd (track st seq)) = running st.
Proof.
  unfold track.
  destruct (0 <=? last_seq st); [|simpl; auto].
  destruct (negb _); [|simpl; auto].
  destruct (0x7FFFFFFF <? _); [simpl; auto|].
  destruct (0 <? _); simpl; auto.
Qed.

(** The counters and [last_seq] are settled by the tracking block alone:
    nothing after line 153 writes them. *)
Lemma receive_packet_stats (st : State) (data : list byte) :
  (HEADER_SIZE <= length data)%nat ->
  stats (receive_packet st data) =
  stats (snd (track st (unpack_be32 (firstn HEADER_SIZE data)))).
Proof.
  intros Hlen. unfold receive_packet.
  destruct (Nat.ltb_spec (length data) HEADER_SIZE) as [Hlt|_]; [lia|].
  destruct (track st _) as [c st1]; simpl.
  destruct c; try reflexivity;
    destruct (decode_pcm _); try reflexivity; apply push_stats.
Qed.

Lemma header_of_packet (s : Z) (payload : list byte) :
  firstn HEADER_SIZE (packet s payload) = pack_be32 s /\
  skipn HEADER_SIZE (packet s payload) = payload /\
  (length (packet s payload) <? HEADER_SIZE)%nat = false.
Proof. repeat split. Qed.

Lemma track_in_order (st : State) :
  0 <= last_seq st < 4294967296 ->
  track st ((last_seq st + 1) mod 4294967296) =
  (InOrder, set_last_seq ((last_seq st + 1) mod 4294967296) st).
Proof.
  intros Hs. unfold track.
  destruct (Z.leb_spec 0 (last_seq st)) as [_|]; [|lia].
  rewrite land_mask32, Z.eqb_refl. reflexivity.
Qed.

Lemma track_gap (st : State) (k : Z) :
  0 <= last_seq st < 4294967296 ->
  2 <= k <= 2147483647 ->
  track st ((last_seq st + k) mod 4294967296) =
  (Gap (k - 1),
   set_last_seq ((last_seq st + k) mod 4294967296) (add_dropped (k - 1) st)).
Proof.
  intros Hs Hk. unfold track.
  destruct (Z.leb_spec 0 (last_seq st)) as [_|]; [|lia].
  rewrite !land_mask32.
  assert (Hgap : ((last_seq st + k) mod 4294967296 - last_seq st) mod 4294967296 = k).
  { rewrite Zminus_mod_idemp_l.
    replace (last_seq st + k - last_seq st) with k by lia.
    apply Z.mod_small. lia. }
  assert (Hne : (last_seq st + k) mod 4294967296 <> (last_seq st + 1) mod 4294967296).
  { intros E.
    assert (E' : ((last_seq st + k) mod 4294967296 - last_seq st) mod 4294967296
                 = ((last_seq st + 1) mod 4294967296 - last_seq st) mod 4294967296)
      by (rewrite E; reflexivity).
    rewrite Hgap, Zminus_mod_idemp_l in E'.
    replace (last_seq st + 1 - last_seq st) with 1 in E' by lia.
    rewrite Z.mod_small in E' by lia. lia. }
  apply Z.eqb_neq in Hne. rewrite Hne. cbn [negb].
  rewrite Hgap.
  destruct (Z.ltb_spec 0x7FFFFFFF k) as [Hbig|_]; [lia|].
  destruct (Z.ltb_spec 0 (k - 1)) as [_|]; [|lia].
  reflexivity.
Qed.

Lemma track_stale (st : State) (k : Z) :
  0 <= last_seq st < 4294967296 ->
  1 <= k <= 2147483648 ->
  track st ((last_seq st - k) mod 4294967296) = (Reorder, add_reordered 1 st).
Proof.
  intros Hs Hk. unfold track.
  destruct (Z.leb_spec 0 (last_seq st)) as [_|]; [|lia].
  rewrite !land_mask32.
  assert (Hgap : ((last_seq st - k) mod 4294967296 - last_seq st) mod 4294967296
                 = 4294967296 - k).
  { rewrite Zminus_mod_idemp_l.
    replace (last_seq st - k - last_seq st) with (- k + 1 * 4294967296 - 4294967296) by lia.
    replace (- k + 1 * 4294967296 - 4294967296) with ((4294967296 - k) + (-1) * 4294967296) by lia.
    rewrite Z.mod_add by lia. apply Z.mod_small. lia. }
  assert (Hne : (last_seq st - k) mod 4294967296 <> (last_seq st + 1) mod 4294967296).
  { intros E.
    assert (E' : ((last_seq st - k) mod 4294967296 - last_seq st) mod 4294967296
                 = ((last_seq st + 1) mod 4294967296 - last_seq st) mod 4294967296)
      by (rewrite E; reflexivity).
    rewrite Hgap, Zminus_mod_idemp_l in E'.
    replace (last_seq st + 1 - last_seq st) with 1 in E' by lia.
    rewrite Z.mod_small in E' by lia. lia. }
  apply Z.eqb_neq in Hne. rewrite Hne. cbn [negb].
  rewrite Hgap.
  destruct (Z.ltb_spec 0x7FFFFFFF (4294967296 - k)) as [_|Hsmall]; [reflexivity|].
  change 0x7FFFFFFF with 2147483647 in Hsmall. lia.
Qed.

(** Every branch but the reorder one reaches line 153. *)
Lemma track_updates_last_seq (st : State) (seq : Z) :
  fst (track st seq) <> Reorder -> last_seq (snd (track st seq)) = seq.
Proof.
  unfold track.
  destruct (0 <=? last_seq st); [|reflexivity].
  destruct (negb _); [|reflexivity].
  destruct (0x7FFFFFFF <? _); [simpl; congruence|].
  destruct (0 <? _); reflexivity.
Qed.

Lemma classify_packet (st : State) (s : Z) (payload : list byte) :
  0 <= s < WRAP ->
  classify st (packet s payload) = Some (fst (track st s)).
Proof.
  intros Hs. unfold classify.
  destruct (header_of_packet s payload) as (Hh & _ & Hl).
  rewrite Hl, Hh, unpack_pack_be32 by exact Hs. reflexivity.
Qed.

Lemma receive_packet_packet (st : State) (s : Z) (payload : list byte) :
  0 <= s < WRAP ->
  receive_packet st (packet s payload) =
  match track st s with
  | (Reorder, st1) => st1
  | (_, st1) =>
      match decode_pcm payload with
      | None => st1
      | Some audio => push audio st1
      end
  end.
Proof.
  intros Hs. unfold receive_packet.
  destruct (header_of_packet s payload) as (Hh & Hp & Hl).
  rewrite Hl, Hh, Hp, unpack_pack_be32 by exact Hs. reflexivity.
Qed.

Lemma stats_receive_packet_packet (st : State) (s : Z) (payload : list byte) :
  0 <= s < WRAP ->
  stats (receive_packet st (packet s payload)) = stats (snd (track st s)).
Proof.
  intros Hs.
  rewrite receive_packet_stats
    by (unfold packet; rewrite length_app, length_pack_be32; lia).
  destruct (header_of_packet s payload) as (Hh & _ & _).
  rewrite Hh, unpack_pack_be32 by exact Hs. reflexivity.
Qed.

Lemma mod_WRAP_range (n : Z) : 0 <= n mod WRAP < WRAP.
Proof. apply Z.mod_pos_bound. reflexivity. Qed.

(** C1. With [last_seq = s] already observed, the packet numbered
    [(s+1) mod 2^32] takes the in-order branch (also across the wrap from
    [2^32-1] to [0]), the packet numbered [(s+5) mod 2^32] takes the gap
    branch with 4 missed and adds 4 to [dropped_packets], the packet
    numbered [(s-1) mod 2^32] takes the reorder branch and leaves
    [last_seq] alone; every branch but the reorder one stores the incoming
    number in [last_seq]. *)
Theorem C1_sequence_classification (st : State) (payload : list byte) :
  0 <= last_seq st < WRAP ->
  (classify st (packet ((last_seq st + 1) mod WRAP) payload) = Some InOrder /\
   stats (receive_packet st (packet ((last_seq st + 1) mod WRAP) payload)) =
   ((last_seq st + 1) mod WRAP, dropped_packets st, reordered_packets st)) /\
  (last_seq st = WRAP - 1 ->
   classify st (packet 0 payload) = Some InOrder /\
   stats (receive_packet st (packet 0 payload)) =
   (0, dropped_packets st, reordered_packets st)) /\
  (classify st (packet ((last_seq st + 5) mod WRAP) payload) = Some (Gap 4) /\
   stats (receive_packet st (packet ((last_seq st + 5) mod WRAP) payload)) =
   ((last_seq st + 5) mod WRAP, dropped_packets st + 4, reordered_packets st)) /\
  (classify st (packet ((last_seq st - 1) mod WRAP) payload) = Some Reorder /\
   stats (receive_packet st (packet ((last_seq st - 1) mod WRAP) payload)) =
   (last_seq st, dropped_packets st, reordered_packets st + 1) /\
   jitter_buffer (receive_packet st (packet ((last_seq st - 1) mod WRAP) payload)) =
   jitter_buffer st) /\
  (forall (st' : State) (data : list byte) (c : Classification),
      classify st' data = Some c -> c <> Reorder ->
      last_seq (receive_packet st' data) = unpack_be32 (firstn HEADER_SIZE data)).
Proof.
  intros Hs.
  assert (Hin : classify st (packet ((last_seq st + 1) mod WRAP) payload) = Some InOrder /\
   stats (receive_packet st (packet ((last_seq st + 1) mod WRAP) payload)) =
   ((last_seq st + 1) mod WRAP, dropped_packets st, reordered_packets st)).
  { rewrite classify_packet, stats_receive_packet_packet by apply mod_WRAP_range.
    unfold WRAP in *. rewrite track_in_order by exact Hs. split; reflexivity. }
  split; [exact Hin|].
  split.
  { intros Hmax. rewrite Hmax in Hin.
    replace ((WRAP - 1 + 1) mod WRAP) with 0 in Hin by reflexivity. exact Hin. }
  split.
  { rewrite classify_packet, stats_receive_packet_packet by apply mod_WRAP_range.
    unfold WRAP in *. rewrite track_gap by (try exact Hs; lia). split; reflexivity. }
  split.
  { rewrite classify_packet, stats_receive_packet_packet, receive_packet_packet
      by apply mod_WRAP_range.
    unfold WRAP in *. rewrite track_stale by (try exact Hs; lia).
    repeat split. }
  intros st' data c Hc Hne. unfold classify in Hc.
  destruct (Nat.ltb_spec (length data) HEADER_SIZE) as [|Hlen]; [discriminate|].
  injection Hc as Hc. subst c.
  pose proof (receive_packet_stats st' data Hlen) as E.
  apply (f_equal (fun t => fst (fst t))) in E. simpl in E. rewrite E.
  apply track_updates_last_seq. exact Hne.
Qed.

Lemma C1_sequence_classification_witness :
  0 <= last_seq (set_last_seq 4294967295 initial_state) < WRAP /\
  classify (set_last_seq 4294967295 initial_state) (packet 0 [x01; x00; x02; x00])
  = Some InOrder.
Proof.
  assert (H : 0 <= last_seq (set_last_seq 4294967295 initial_state) < WRAP)
    by (unfold WRAP; simpl; lia).
  split; [exact H|].
  exact (proj1 (proj1 (proj2
    (C1_sequence_classification (set_last_seq 4294967295 initial_state)
       [x01; x00; x02; x00] H)) eq_refl)).
Defined.

(** ** Receive loop: what reaches the jitter buffer *)

Lemma track_stats_congr (st st' : State) (seq : Z) :
  stats st = stats st' ->
  fst (track st seq) = fst (track st' seq) /\
  stats (snd (track st seq)) = stats (snd (track st' seq)).
Proof.
  unfold stats. intros E. injection E as E1 E2 E3.
  unfold track. rewrite E1.
  destruct (0 <=? last_seq st'); [|simpl; split; congruence].
  destruct (negb _); [|simpl; split; congruence].
  destruct (0x7FFFFFFF <? _); [simpl; split; congruence|].
  destruct (0 <? _); simpl; split; congruence.
Qed.

Lemma stats_receive_all_datagrams (pl : Z -> list byte) (seqs : list Z) :
  Forall (fun s => 0 <= s < WRAP) seqs ->
  forall st st' : State,
    stats st = stats st' ->
    stats (receive_all st (datagrams pl seqs)) = stats (track_all st' seqs).
Proof.
  induction 1 as [|s seqs Hs _ IH]; intros st st' E; [exact E|].
  simpl. apply IH.
  rewrite stats_receive_packet_packet by exact Hs.
  apply track_stats_congr. exact E.
Qed.

Lemma receive_all_app (st : State) (a b : list (list byte)) :
  receive_all st (a ++ b) = receive_all (receive_all st a) b.
Proof. apply fold_left_app. Qed.

Lemma Z_range_bounds (lo : Z) (n : nat) :
  Forall (fun s => lo <= s < lo + Z.of_nat n) (Z_range lo n).
Proof.
  unfold Z_range. apply Forall_forall. intros s Hin.
  apply in_map_iff in Hin as (i & <- & Hi). apply in_seq in Hi. lia.
Qed.

Lemma before_stale_range : Forall (fun s => 0 <= s < WRAP) before_stale.
Proof.
  unfold before_stale. rewrite !Forall_app. repeat split;
    (eapply Forall_impl; [|apply Z_range_bounds]); unfold WRAP; simpl; lia.
Qed.

Lemma after_stale_range : Forall (fun s => 0 <= s < WRAP) after_stale.
Proof.
  unfold after_stale.
  (eapply Forall_impl; [|apply Z_range_bounds]); unfold WRAP; simpl; lia.
Qed.

(** The reorder branch ends the iteration before the decode and the push. *)
Lemma reorder_not_queued (st : State) (data : list byte) :
  classify st data = Some Reorder ->
  jitter_buffer (receive_packet st data) = jitter_buffer st /\
  buffer_ready (receive_packet st data) = buffer_ready st.
Proof.
  unfold classify, receive_packet.
  destruct (length data <? HEADER_SIZE)%nat; [discriminate|].
  intros H. injection H as H.
  pose proof (track_jitter_buffer st (unpack_be32 (firstn HEADER_SIZE data))) as (Hq & Hr & _).
  destruct (track st _) as [c st1]. simpl in *. subst c. auto.
Qed.

(** After the datagrams before the stale one, the tracker stands at [60]
    with one packet (37, then 52) counted as dropped twice. *)
Lemma stats_before_stale (pl : Z -> list byte) :
  stats (receive_all initial_state (datagrams pl before_stale)) = (60, 2, 0).
Proof.
  rewrite (stats_receive_all_datagrams pl before_stale before_stale_range
             initial_state initial_state eq_refl).
  vm_compute. reflexivity.
Qed.

Lemma track_branch_congr (st st' : State) (seq : Z) :
  last_seq st = last_seq st' -> fst (track st seq) = fst (track st' seq).
Proof.
  intros E. unfold track. rewrite E.
  destruct (0 <=? last_seq st'); [|reflexivity].
  destruct (negb _); [|reflexivity].
  destruct (0x7FFFFFFF <? _); reflexivity.
Qed.

Lemma stats_last_seq (st : State) (a b c : Z) :
  stats st = (a, b, c) -> last_seq st = a.
Proof. unfold stats. intros E. injection E as E _ _. exact E. Qed.

Lemma track_stale_at (st : State) (s seq : Z) :
  last_seq st = s ->
  fst (track (set_last_seq s initial_state) seq) = Reorder ->
  fst (track st seq) = Reorder.
Proof.
  intros E H. rewrite <- H. apply track_branch_congr. rewrite E. reflexivity.
Qed.

Lemma classify_stale (pl : Z -> list byte) (sp : list byte) :
  classify (receive_all initial_state (datagrams pl before_stale)) (packet 58 sp)
  = Some Reorder.
Proof.
  rewrite classify_packet by (unfold WRAP; lia).
  f_equal.
  apply (track_stale_at _ 60 58).
  - exact (stats_last_seq _ _ _ _ (stats_before_stale pl)).
  - vm_compute. reflexivity.
Qed.

Lemma stats_scenario (pl : Z -> list byte) (sp : list byte) :
  stats (receive_all initial_state (scenario pl sp)) = (99, 2, 1).
Proof.
  unfold scenario. rewrite !receive_all_app.
  set (S1 := receive_all initial_state (datagrams pl before_stale)).
  assert (E1 : stats S1 = stats (track_all initial_state before_stale))
    by (apply stats_receive_all_datagrams; [apply before_stale_range | reflexivity]).
  assert (E2 : stats (receive_all S1 [packet 58 sp]) =
               stats (snd (track (track_all initial_state before_stale) 58))).
  { change (receive_all S1 [packet 58 sp]) with (receive_packet S1 (packet 58 sp)).
    rewrite stats_receive_packet_packet by (unfold WRAP; lia).
    apply track_stats_congr. exact E1. }
  rewrite (stats_receive_all_datagrams pl after_stale after_stale_range _ _ E2).
  vm_compute. reflexivity.
Qed.

Lemma in_deque_append {A} (maxlen : nat) (x y : A) (q : list A) :
  In y (deque_append maxlen x q) -> y = x \/ In y q.
Proof.
  unfold deque_append. intros H.
  assert (H' : In y (q ++ [x])).
  { destruct (maxlen <? length (q ++ [x]))%nat; [|exact H].
    destruct (q ++ [x]); [destruct H | right; exact H]. }
  apply in_app_or in H' as [H'|[H'|[]]]; auto.
Qed.

Lemma jitter_buffer_push (audio : Chunk) (st : State) :
  jitter_buffer (push audio st) = deque_append MAXLEN audio (jitter_buffer st).
Proof. unfold push. destruct (_ && _); reflexivity. Qed.

(** Whatever sits in the buffer after an iteration was there before, or is
    the decoded payload of a datagram that did not take the reorder branch. *)
Lemma in_receive_packet (st : State) (data : list byte) (c : Chunk) :
  In c (jitter_buffer (receive_packet st data)) ->
  In c (jitter_buffer st) \/
  (classify st data <> Some Reorder /\
   decode_pcm (skipn HEADER_SIZE data) = Some c).
Proof.
  unfold receive_packet, classify.
  destruct (length data <? HEADER_SIZE)%nat; [auto|].
  pose proof (track_jitter_buffer st (unpack_be32 (firstn HEADER_SIZE data))) as (Hq & _).
  destruct (track st _) as [cls st1]. simpl in Hq. simpl fst.
  assert (Hpush : In c (jitter_buffer
            match decode_pcm (skipn HEADER_SIZE data) with
            | Some audio => push audio st1
            | None => st1
            end) ->
          In c (jitter_buffer st) \/ decode_pcm (skipn HEADER_SIZE data) = Some c).
  { destruct (decode_pcm _) as [audio|]; [|rewrite Hq; auto].
    rewrite jitter_buffer_push. intros H.
    apply in_deque_append in H as [->|H]; [auto | rewrite Hq in H; auto]. }
  destruct cls; intros H; try (rewrite Hq in H; auto; fail);
    (apply Hpush in H as [H|H]; [auto | right; split; [discriminate | exact H]]).
Qed.

Lemma stats_counters (st : State) (a b c : Z) :
  stats st = (a, b, c) -> dropped_packets st = b /\ reordered_packets st = c.
Proof. unfold stats. intros E. injection E as _ E1 E2. auto. Qed.

Lemma tl_trace_cons (st : State) (p : list byte) (ps : list (list byte)) :
  tl (trace st (p :: ps)) = trace (receive_packet st p) ps.
Proof. reflexivity. Qed.

Lemma trace_app (st : State) (a b : list (list byte)) :
  trace st (a ++ b) = trace st a ++ tl (trace (receive_all st a) b).
Proof.
  revert st. induction a as [|p a IH]; intros st; simpl.
  - destruct b; reflexivity.
  - rewrite IH. reflexivity.
Qed.

Lemma trace_datagrams_safe (pl : Z -> list byte) (c : Chunk) (seqs : list Z) :
  (forall s, decode_pcm (pl s) <> Some c) ->
  forall st, ~ In c (jitter_buffer st) ->
    Forall (fun st' => ~ In c (jitter_buffer st')) (trace st (datagrams pl seqs)) /\
    ~ In c (jitter_buffer (receive_all st (datagrams pl seqs))).
Proof.
  intros Hpl. induction seqs as [|s seqs IH]; intros st Hst; simpl.
  - split; [constructor; [exact Hst | constructor] | exact Hst].
  - assert (Hnext : ~ In c (jitter_buffer (receive_packet st (packet s (pl s))))).
    { intros Hin. apply in_receive_packet in Hin as [Hin|[_ Hin]]; [auto|].
      destruct (header_of_packet s (pl s)) as (_ & Hp & _).
      rewrite Hp in Hin. exact (Hpl s Hin). }
    destruct (IH _ Hnext) as [Htr Hend].
    split; [constructor; assumption | exact Hend].
Qed.

(** C2. A datagram that takes the reorder branch leaves the jitter buffer
    as it was.  In the end-to-end scenario (sequence numbers 0..99 without
    37 and 52, a stale datagram numbered 58 right after 59 and 60), whatever
    the payloads, the session ends with [dropped_packets = 2] and
    [reordered_packets = 1]; the stale datagram takes the reorder branch
    and its iteration leaves the buffer unchanged, and audio that only the
    stale payload decodes to is in the buffer at no point of the run. *)
Theorem C2_reordered_never_queued :
  (forall (st : State) (data : list byte),
      classify st data = Some Reorder ->
      jitter_buffer (receive_packet st data) = jitter_buffer st) /\
  (forall (pl : Z -> list byte) (sp : list byte),
      dropped_packets (receive_all initial_state (scenario pl sp)) = 2 /\
      reordered_packets (receive_all initial_state (scenario pl sp)) = 1 /\
      classify (receive_all initial_state (datagrams pl before_stale)) (packet 58 sp)
      = Some Reorder /\
      jitter_buffer
        (receive_packet (receive_all initial_state (datagrams pl before_stale))
           (packet 58 sp))
      = jitter_buffer (receive_all initial_state (datagrams pl before_stale)) /\
      (forall c : Chunk,
          decode_pcm sp = Some c ->
          (forall s, decode_pcm (pl s) <> Some c) ->
          Forall (fun st => ~ In c (jitter_buffer st))
            (trace initial_state (scenario pl sp)))).
Proof.
  split; [intros st data H; apply reorder_not_queued; exact H|].
  intros pl sp.
  destruct (stats_counters _ _ _ _ (stats_scenario pl sp)) as [Ed Er].
  pose proof (classify_stale pl sp) as Hc.
  pose proof (proj1 (reorder_not_queued _ _ Hc)) as Hq.
  repeat (split; [assumption|]).
  intros c _ Hpl. unfold scenario.
  rewrite trace_app. apply Forall_app.
  destruct (trace_datagrams_safe pl c before_stale Hpl initial_state)
    as [Htr Hend]; [simpl; tauto|].
  split; [exact Htr|].
  change ([packet 58 sp] ++ datagrams pl after_stale)
    with (packet 58 sp :: datagrams pl after_stale).
  rewrite tl_trace_cons. rewrite <- Hq in Hend.
  apply (trace_datagrams_safe pl c after_stale Hpl). exact Hend.
Qed.

Lemma C2_reordered_never_queued_witness :
  decode_pcm [x01; x00; x01; x00] = Some [[1; 1]] /\
  (forall s : Z, decode_pcm ((fun _ => [x00; x00; x00; x00]) s) <> Some [[1; 1]]) /\
  Forall (fun st => ~ In [[1; 1]] (jitter_buffer st))
    (trace initial_state
       (scenario (fun _ => [x00; x00; x00; x00]) [x01; x00; x01; x00])).
Proof.
  assert (H1 : decode_pcm [x01; x00; x01; x00] = Some [[1; 1]]) by reflexivity.
  assert (H2 : forall s : Z,
             decode_pcm ((fun _ => [x00; x00; x00; x00]) s) <> Some [[1; 1]])
    by (intros s; vm_compute; discriminate).
  split; [exact H1|]. split; [exact H2|].
  exact (proj2 (proj2 (proj2 (proj2
    (proj2 C2_reordered_never_queued
       (fun _ => [x00; x00; x00; x00]) [x01; x00; x01; x00]))))
    [[1; 1]] H1 H2).
Defined.

(** ** Frame codec *)

Lemma frombuffer_length (n : nat) :
  forall bs : list byte, (length bs <= n)%nat ->
    match frombuffer bs with
    | Some samples => (length bs = 2 * length samples)%nat
    | None => Nat.odd (length bs) = true
    end.
Proof.
  induction n as [|n IH]; intros bs Hn.
  - destruct bs; [reflexivity | simpl in Hn; lia].
  - destruct bs as [|lo [|hi rest]]; [reflexivity | reflexivity |].
    assert (Hr : (length rest <= n)%nat) by (simpl in Hn; lia).
    specialize (IH rest Hr). cbn [frombuffer].
    destruct (frombuffer rest) as [samples|].
    + cbn [length]. lia.
    + change (length (lo :: hi :: rest)) with (S (S (length rest))).
      rewrite Nat.odd_succ_succ. exact IH.
Qed.

Lemma frombuffer_odd (bs : list byte) :
  Nat.odd (length bs) = true -> frombuffer bs = None.
Proof.
  intros Hodd. pose proof (frombuffer_length (length bs) bs (le_n _)) as H.
  destruct (frombuffer bs) as [samples|]; [|reflexivity].
  rewrite H, Nat.odd_mul in Hodd. discriminate.
Qed.

Lemma frombuffer_even (bs : list byte) :
  Nat.even (length bs) = true ->
  exists samples, frombuffer bs = Some samples /\
                  (length bs = 2 * length samples)%nat.
Proof.
  intros Heven. pose proof (frombuffer_length (length bs) bs (le_n _)) as H.
  destruct (frombuffer bs) as [samples|]; [eauto|].
  rewrite <- Nat.negb_even, Heven in H. discriminate.
Qed.

Lemma length_reshape (rows cols : nat) (samples : list Z) :
  length (reshape rows cols samples) = rows.
Proof.
  revert samples. induction rows as [|r IH]; intros samples; simpl; [|rewrite IH];
    reflexivity.
Qed.

Lemma reshape_rows (rows cols : nat) :
  forall samples : list Z,
    length samples = (rows * cols)%nat ->
    Forall (fun row => length row = cols) (reshape rows cols samples) /\
    concat (reshape rows cols samples) = samples.
Proof.
  induction rows as [|r IH]; intros samples Hlen; simpl in *.
  - split; [constructor|]. destruct samples; [reflexivity | discriminate].
  - destruct (IH (skipn cols samples)) as [Hrows Hcat].
    { rewrite length_skipn. lia. }
    split.
    + constructor; [|exact Hrows]. rewrite length_firstn. lia.
    + rewrite Hcat. apply firstn_skipn.
Qed.

(** What line 168 keeps of a decoded sample array. *)
Lemma decode_pcm_even (bs : list byte) (samples : list Z) :
  frombuffer bs = Some samples ->
  (CHANNELS <= length samples)%nat ->
  exists audio,
    decode_pcm bs = Some audio /\
    length audio = (length samples / CHANNELS)%nat /\
    Forall (fun row => length row = CHANNELS) audio /\
    concat audio = firstn (length samples / CHANNELS * CHANNELS) samples.
Proof.
  intros Hfb Hn.
  pose proof (frombuffer_length (length bs) bs (le_n _)) as Hlen.
  rewrite Hfb in Hlen.
  unfold decode_pcm. rewrite Hfb.
  destruct (Nat.ltb_spec (length bs) 2) as [Hshort|_];
    [unfold CHANNELS in Hn; lia|].
  assert (Hdiv : (length samples / CHANNELS * CHANNELS <= length samples)%nat).
  { rewrite Nat.mul_comm. apply Nat.Div0.mul_div_le. }
  assert (Hpos : (0 < length samples / CHANNELS)%nat)
    by (apply Nat.div_str_pos; unfold CHANNELS in *; lia).
  destruct (Nat.eqb_spec (length samples / CHANNELS) 0) as [E|_]; [lia|].
  eexists. split; [reflexivity|].
  split; [apply length_reshape|].
  apply reshape_rows. rewrite length_firstn. lia.
Qed.

(** A datagram whose PCM bytes do not decode ends its iteration after
    the tracking block: the state is the tracker's, the buffer untouched. *)
Lemma no_frame_no_push (st : State) (data : list byte) :
  (HEADER_SIZE <= length data)%nat ->
  decode_pcm (skipn HEADER_SIZE data) = None ->
  receive_packet st data = snd (track st (unpack_be32 (firstn HEADER_SIZE data))) /\
  jitter_buffer (receive_packet st data) = jitter_buffer st /\
  buffer_ready (receive_packet st data) = buffer_ready st.
Proof.
  intros Hlen Hdec.
  assert (E : receive_packet st data =
              snd (track st (unpack_be32 (firstn HEADER_SIZE data)))).
  { unfold receive_packet.
    destruct (Nat.ltb_spec (length data) HEADER_SIZE) as [|_]; [lia|].
    rewrite Hdec. destruct (track st _) as [c st1]. destruct c; reflexivity. }
  rewrite E. split; [reflexivity|].
  pose proof (track_jitter_buffer st (unpack_be32 (firstn HEADER_SIZE data)))
    as (Hq & Hr & _). auto.
Qed.

(** C3, as the code has it.  A payload with an odd number of bytes (such
    as [CHANNELS * 2 + 1]) makes [np.frombuffer] raise, the loop catches
    the error and no frame reaches the buffer.  A payload with an even
    number of bytes holding at least [CHANNELS] samples decodes to
    [samples / CHANNELS] frames of [CHANNELS] samples each, the samples
    that do not fill a frame being cut off at the end; [CHANNELS * 2 + 2]
    bytes give exactly one frame, the trailing sample being discarded.  An
    even payload with fewer than [CHANNELS] samples gives no frame. *)
Theorem C3_partial_frame_codec (payload : list byte) :
  (Nat.odd (length payload) = true ->
   decode_pcm payload = None /\
   forall (st : State) (seq : Z), 0 <= seq < WRAP ->
     jitter_buffer (receive_packet st (packet seq payload)) = jitter_buffer st) /\
  (Nat.even (length payload) = true ->
   (2 * CHANNELS <= length payload)%nat ->
   exists (samples : list Z) (audio : Chunk),
     frombuffer payload = Some samples /\
     (length payload = 2 * length samples)%nat /\
     decode_pcm payload = Some audio /\
     length audio = (length samples / CHANNELS)%nat /\
     Forall (fun row => length row = CHANNELS) audio /\
     concat audio = firstn (length samples / CHANNELS * CHANNELS) samples) /\
  (length payload = (CHANNELS * 2 + 2)%nat ->
   exists (samples : list Z),
     frombuffer payload = Some samples /\
     length samples = (CHANNELS + 1)%nat /\
     decode_pcm payload = Some [firstn CHANNELS samples] /\
     length (firstn CHANNELS samples) = CHANNELS) /\
  (Nat.even (length payload) = true ->
   (length payload < 2 * CHANNELS)%nat ->
   decode_pcm payload = None).
Proof.
  split; [|split; [|split]].
  - intros Hodd.
    assert (Hdec : decode_pcm payload = None).
    { unfold decode_pcm. rewrite (frombuffer_odd payload Hodd).
      destruct (length payload <? 2)%nat; reflexivity. }
    split; [exact Hdec|]. intros st seq Hseq.
    destruct (header_of_packet seq payload) as (_ & Hp & _).
    apply no_frame_no_push.
    + unfold packet. rewrite length_app, length_pack_be32. lia.
    + rewrite Hp. exact Hdec.
  - intros Heven Hlen.
    destruct (frombuffer_even payload Heven) as (samples & Hfb & Hl).
    destruct (decode_pcm_even payload samples Hfb) as (audio & Hd & Ha & Hrows & Hcat);
      [lia|].
    exists samples, audio. auto 10.
  - intros Hlen.
    assert (Heven : Nat.even (length payload) = true) by (rewrite Hlen; reflexivity).
    destruct (frombuffer_even payload Heven) as (samples & Hfb & Hl).
    assert (Hs : length samples = 3%nat) by (unfold CHANNELS in Hlen; lia).
    exists samples. split; [exact Hfb|]. split; [exact Hs|].
    split.
    + unfold decode_pcm. rewrite Hfb, Hs, Hlen.
      change (Some (reshape 1 CHANNELS (firstn CHANNELS samples))
              = Some [firstn CHANNELS samples]).
      cbn [reshape]. rewrite firstn_firstn, Nat.min_id. reflexivity.
    + rewrite length_firstn, Hs. reflexivity.
  - intros Heven Hlen.
    destruct (frombuffer_even payload Heven) as (samples & Hfb & Hl).
    unfold decode_pcm. rewrite Hfb.
    destruct (length payload <? 2)%nat; [reflexivity|].
    assert (Hs : (length samples < CHANNELS)%nat) by lia.
    rewrite (Nat.div_small _ _ Hs). reflexivity.
Qed.

Lemma C3_partial_frame_codec_witness :
  length [x01; x00; x02; x00; x03; x00] = (CHANNELS * 2 + 2)%nat /\
  decode_pcm [x01; x00; x02; x00; x03; x00] = Some [[1; 2]].
Proof.
  assert (H : length [x01; x00; x02; x00; x03; x00] = (CHANNELS * 2 + 2)%nat)
    by reflexivity.
  split; [exact H|].
  destruct (proj1 (proj2 (proj2
    (C3_partial_frame_codec [x01; x00; x02; x00; x03; x00]))) H)
    as (samples & Hfb & _ & Hd & _).
  injection Hfb as <-. exact Hd.
Defined.

(** C3 as stated fails: five bytes after the header ([CHANNELS * 2 + 1])
    decode to no frame at all, and nothing is queued. *)
Lemma C3_counterexample :
  length [x01; x00; x02; x00; x03] = (CHANNELS * 2 + 1)%nat /\
  decode_pcm [x01; x00; x02; x00; x03] = None /\
  jitter_buffer
    (receive_packet initial_state (packet 0 [x01; x00; x02; x00; x03])) = [].
Proof. repeat split. Qed.

(** C4, as the code has it.  A datagram shorter than the header changes
    nothing.  A datagram with a header and fewer than two bytes after it
    produces no frame (buffer and ready latch untouched), but the tracking
    block has already run on its sequence number: the resulting state is
    the tracker's, [last_seq] and the counters included. *)
Theorem C4_malformed_packet (st : State) (data : list byte) :
  ((length data < HEADER_SIZE)%nat -> receive_packet st data = st) /\
  ((HEADER_SIZE <= length data)%nat ->
   (length (skipn HEADER_SIZE data) < 2)%nat ->
   receive_packet st data = snd (track st (unpack_be32 (firstn HEADER_SIZE data))) /\
   jitter_buffer (receive_packet st data) = jitter_buffer st /\
   buffer_ready (receive_packet st data) = buffer_ready st).
Proof.
  split.
  - intros Hshort. unfold receive_packet.
    destruct (Nat.ltb_spec (length data) HEADER_SIZE) as [_|]; [reflexivity | lia].
  - intros Hlen Hpcm. apply no_frame_no_push; [exact Hlen|].
    unfold decode_pcm.
    destruct (Nat.ltb_spec (length (skipn HEADER_SIZE data)) 2) as [_|];
      [reflexivity | lia].
Qed.

Lemma C4_malformed_packet_witness :
  (length [x00; x00; x07] < HEADER_SIZE)%nat /\
  receive_packet (set_last_seq 3 initial_state) [x00; x00; x07]
  = set_last_seq 3 initial_state.
Proof.
  assert (H : (length [x00; x00; x07] < HEADER_SIZE)%nat)
    by (unfold HEADER_SIZE; simpl; lia).
  split; [exact H|].
  exact (proj1 (C4_malformed_packet (set_last_seq 3 initial_state) [x00; x00; x07]) H).
Defined.

(** C4 as stated fails: after packet 0, a datagram numbered 5 with one
    byte after its header produces no frame, yet it moves [last_seq] to 5
    and adds 4 to [dropped_packets]. *)
Lemma C4_counterexample :
  (length (skipn HEADER_SIZE (packet 5 [x2a])) < 2)%nat /\
  stats (receive_packet initial_state (packet 0 [x01; x00; x02; x00])) = (0, 0, 0) /\
  stats (receive_packet
           (receive_packet initial_state (packet 0 [x01; x00; x02; x00]))
           (packet 5 [x2a])) = (5, 4, 0) /\
  jitter_buffer (receive_packet
           (receive_packet initial_state (packet 0 [x01; x00; x02; x00]))
           (packet 5 [x2a])) = [[[1; 2]]].
Proof. split; [simpl; lia | repeat split]. Qed.

(** ** Jitter buffer *)

Lemma length_deque_append {A} (maxlen : nat) (x : A) (q : list A) :
  (length q <= maxlen)%nat -> (length (deque_append maxlen x q) <= maxlen)%nat.
Proof.
  intros Hq. unfold deque_append.
  destruct (Nat.ltb_spec maxlen (length (q ++ [x]))) as [Hfull|Hroom]; [|exact Hroom].
  rewrite length_app in Hfull. simpl in Hfull.
  destruct q as [|y q]; simpl in *; [lia|].
  rewrite length_app. simpl. lia.
Qed.

Lemma deque_append_full {A} (maxlen : nat) (x : A) (q : list A) :
  length q = maxlen -> (0 < maxlen)%nat -> deque_append maxlen x q = tl q ++ [x].
Proof.
  intros Hq Hpos. unfold deque_append.
  destruct (Nat.ltb_spec maxlen (length (q ++ [x]))) as [_|Hroom].
  - destruct q; [simpl in Hq; lia | reflexivity].
  - rewrite length_app in Hroom. simpl in Hroom. lia.
Qed.

Lemma deque_append_room {A} (maxlen : nat) (x : A) (q : list A) :
  (length q < maxlen)%nat -> deque_append maxlen x q = q ++ [x].
Proof.
  intros Hq. unfold deque_append.
  destruct (Nat.ltb_spec maxlen (length (q ++ [x]))) as [Hfull|_]; [|reflexivity].
  rewrite length_app in Hfull. simpl in Hfull. lia.
Qed.

Lemma length_deque_appendleft {A} (maxlen : nat) (x : A) (q : list A) :
  (length (deque_appendleft maxlen x q) <= S (length q))%nat /\
  ((length q <= maxlen)%nat ->
   (length (deque_appendleft maxlen x q) <= maxlen)%nat).
Proof.
  unfold deque_appendleft.
  destruct (Nat.ltb_spec maxlen (length (x :: q))) as [Hfull|Hroom].
  - assert (E : length (removelast (x :: q)) = length q).
    { change (x :: q) with ([x] ++ q).
      destruct q as [|y q]; [reflexivity|].
      rewrite removelast_app by discriminate.
      rewrite length_app.
      assert (Hr : S (length (removelast (y :: q))) = length (y :: q)).
      { rewrite (app_removelast_last y (l := y :: q)) at 2 by discriminate.
        rewrite length_app. simpl. lia. }
      simpl in *. lia. }
    rewrite E. split; lia.
  - split; [simpl; lia | intros _; exact Hroom].
Qed.

Lemma deque_appendleft_head {A} (x : A) (q : list A) :
  hd_error (deque_appendleft MAXLEN x q) = Some x.
Proof.
  unfold deque_appendleft.
  destruct (Nat.ltb_spec MAXLEN (length (x :: q))) as [Hfull|_]; [|reflexivity].
  destruct q as [|y q]; [unfold MAXLEN in Hfull; simpl in Hfull; lia | reflexivity].
Qed.

Lemma deque_appendleft_room {A} (maxlen : nat) (x : A) (q : list A) :
  (length q < maxlen)%nat -> deque_appendleft maxlen x q = x :: q.
Proof.
  intros Hq. unfold deque_appendleft.
  destruct (Nat.ltb_spec maxlen (length (x :: q))) as [Hfull|_];
    [simpl in Hfull; lia | reflexivity].
Qed.

(** The callback never makes the buffer longer. *)
Lemma length_audio_callback (st : State) (frames : nat) :
  (length (jitter_buffer (fst (audio_callback st frames)))
   <= length (jitter_buffer st))%nat.
Proof.
  unfold audio_callback, callback_pop, callback_emit.
  destruct (jitter_buffer st) as [|c rest]; simpl; [lia|].
  destruct (length c =? frames)%nat; simpl; [lia|].
  destruct (frames <? length c)%nat; simpl; [|lia].
  apply (length_deque_appendleft MAXLEN).
Qed.

Lemma audio_callback_bound (st : State) (frames : nat) :
  (length (jitter_buffer st) <= MAXLEN)%nat ->
  (length (jitter_buffer (fst (audio_callback st frames))) <= MAXLEN)%nat.
Proof. pose proof (length_audio_callback st frames). lia. Qed.

Lemma receive_packet_bound (st : State) (data : list byte) :
  (length (jitter_buffer st) <= MAXLEN)%nat ->
  (length (jitter_buffer (receive_packet st data)) <= MAXLEN)%nat.
Proof.
  intros Hq. unfold receive_packet.
  destruct (length data <? HEADER_SIZE)%nat; [exact Hq|].
  pose proof (track_jitter_buffer st (unpack_be32 (firstn HEADER_SIZE data))) as (E & _).
  destruct (track st _) as [c st1]. simpl in E.
  assert (Hpush : (length (jitter_buffer
            match decode_pcm (skipn HEADER_SIZE data) with
            | Some audio => push audio st1
            | None => st1
            end) <= MAXLEN)%nat).
  { destruct (decode_pcm _) as [audio|]; [|rewrite E; exact Hq].
    rewrite jitter_buffer_push. apply length_deque_append. rewrite E. exact Hq. }
  destruct c; try exact Hpush. rewrite E. exact Hq.
Qed.

Lemma step_bound (st : State) (e : Event) :
  (length (jitter_buffer st) <= MAXLEN)%nat ->
  (length (jitter_buffer (step st e)) <= MAXLEN)%nat.
Proof.
  intros Hq. destruct e as [data|frames|]; simpl.
  - destruct (running st); [apply receive_packet_bound|]; exact Hq.
  - apply audio_callback_bound. exact Hq.
  - exact Hq.
Qed.

Lemma run_bound (evs : list Event) :
  forall st, (length (jitter_buffer st) <= MAXLEN)%nat ->
             (length (jitter_buffer (run st evs)) <= MAXLEN)%nat.
Proof.
  induction evs as [|e evs IH]; intros st Hq; [exact Hq|].
  simpl. apply IH. apply step_bound. exact Hq.
Qed.

(** C5. Whatever the session does (datagrams, callbacks, stop), the
    jitter buffer never holds more than [MAXLEN = 4 * BUFFER_CHUNKS = 8]
    entries; a push into a full buffer drops the head and puts the new entry
    at the tail, a push into a buffer with room only appends. *)
Theorem C5_bounded_growth :
  MAXLEN = (4 * BUFFER_CHUNKS)%nat /\ MAXLEN = 8%nat /\
  (forall evs : list Event,
      (length (jitter_buffer (run initial_state evs)) <= MAXLEN)%nat) /\
  (forall (st : State) (audio : Chunk),
      (length (jitter_buffer st) <= MAXLEN)%nat ->
      (length (jitter_buffer (push audio st)) <= MAXLEN)%nat) /\
  (forall (st : State) (audio : Chunk),
      length (jitter_buffer st) = MAXLEN ->
      jitter_buffer (push audio st) = tl (jitter_buffer st) ++ [audio]) /\
  (forall (st : State) (audio : Chunk),
      (length (jitter_buffer st) < MAXLEN)%nat ->
      jitter_buffer (push audio st) = jitter_buffer st ++ [audio]).
Proof.
  split; [reflexivity|]. split; [reflexivity|].
  split; [intros evs; apply run_bound; simpl; lia|].
  split; [intros st audio H; rewrite jitter_buffer_push;
          apply length_deque_append; exact H|].
  split; intros st audio H; rewrite jitter_buffer_push.
  - apply deque_append_full; [exact H | unfold MAXLEN; simpl; lia].
  - apply deque_append_room. exact H.
Qed.

Lemma C5_bounded_growth_witness :
  length (jitter_buffer
            (set_jitter_buffer (map (fun s => [[s; s]]) (Z_range 1 8)) initial_state))
  = MAXLEN /\
  jitter_buffer
    (push [[9; 9]]
       (set_jitter_buffer (map (fun s => [[s; s]]) (Z_range 1 8)) initial_state))
  = map (fun s => [[s; s]]) (Z_range 2 8).
Proof.
  assert (H : length (jitter_buffer
            (set_jitter_buffer (map (fun s => [[s; s]]) (Z_range 1 8)) initial_state))
          = MAXLEN) by reflexivity.
  split; [exact H|].
  exact (proj1 (proj2 (proj2 (proj2 (proj2 C5_bounded_growth))))
           (set_jitter_buffer (map (fun s => [[s; s]]) (Z_range 1 8)) initial_state)
           [[9; 9]] H).
Defined.

Lemma set_jitter_buffer_same (st : State) :
  set_jitter_buffer (jitter_buffer st) st = st.
Proof. destruct st; reflexivity. Qed.

Lemma pops_queue (q : list Chunk) :
  forall (st : State) (k : nat),
    jitter_buffer st = q ->
    fst (pops (length q + k) st) = map Some q ++ repeat None k /\
    jitter_buffer (snd (pops (length q + k) st)) = [].
Proof.
  induction q as [|c q IH]; intros st k Hq.
  - simpl. revert st Hq. induction k as [|k IHk]; intros st Hq; simpl; [auto|].
    unfold callback_pop. rewrite Hq. simpl.
    specialize (IHk (set_jitter_buffer [] st) eq_refl).
    destruct (pops k (set_jitter_buffer [] st)) as [chunks st2]. simpl in *.
    destruct IHk as [-> ->]. auto.
  - simpl. unfold callback_pop. rewrite Hq. simpl.
    specialize (IH (set_jitter_buffer q st) k eq_refl).
    destruct (pops (length q + k) (set_jitter_buffer q st)) as [chunks st2].
    simpl in *. destruct IH as [-> ->]. auto.
Qed.

Lemma push3_room (st : State) (F1 F2 F3 : Chunk) :
  (length (jitter_buffer st) + 3 <= MAXLEN)%nat ->
  jitter_buffer (push F3 (push F2 (push F1 st))) = jitter_buffer st ++ [F1; F2; F3].
Proof.
  intros Hroom.
  assert (H1 : jitter_buffer (push F1 st) = jitter_buffer st ++ [F1])
    by (rewrite jitter_buffer_push; apply deque_append_room; lia).
  assert (H2 : jitter_buffer (push F2 (push F1 st)) = jitter_buffer st ++ [F1; F2]).
  { rewrite jitter_buffer_push, H1, deque_append_room
      by (rewrite length_app; simpl; lia).
    rewrite <- app_assoc. reflexivity. }
  rewrite jitter_buffer_push, H2, deque_append_room
    by (rewrite length_app; simpl; lia).
  rewrite <- app_assoc. reflexivity.
Qed.

Lemma audio_callback_exact (st : State) (c : Chunk) (rest : list Chunk) :
  jitter_buffer st = c :: rest ->
  audio_callback st (length c) = (set_jitter_buffer rest st, c).
Proof.
  intros Hq. unfold audio_callback, callback_pop, callback_emit.
  rewrite Hq. cbn [deque_popleft]. rewrite Nat.eqb_refl. reflexivity.
Qed.

(** C6. Three frames pushed in the order F1, F2, F3 into a buffer with
    room for them sit at its tail in that order; from an empty buffer,
    three pops return F1, F2, F3 and every later pop reports empty; from a
    buffer that already held entries, those come out first and F1, F2, F3
    follow, each once.  Three callbacks that each request as many rows as
    the frame at the head holds write F1, F2, F3 in that order. *)
Theorem C6_fifo_order (st : State) (F1 F2 F3 : Chunk) :
  (length (jitter_buffer st) + 3 <= MAXLEN)%nat ->
  jitter_buffer (push F3 (push F2 (push F1 st))) = jitter_buffer st ++ [F1; F2; F3] /\
  (jitter_buffer st = [] ->
   forall k : nat,
     fst (pops (3 + k) (push F3 (push F2 (push F1 st)))) =
     [Some F1; Some F2; Some F3] ++ repeat None k) /\
  (forall k : nat,
      fst (pops (length (jitter_buffer st) + 3 + k) (push F3 (push F2 (push F1 st)))) =
      map Some (jitter_buffer st) ++ [Some F1; Some F2; Some F3] ++ repeat None k) /\
  (jitter_buffer st = [] ->
   snd (callbacks (push F3 (push F2 (push F1 st)))
          [length F1; length F2; length F3]) = [F1; F2; F3]).
Proof.
  intros Hroom. pose proof (push3_room st F1 F2 F3 Hroom) as Hq.
  split; [exact Hq|].
  assert (Hgen : forall k : nat,
      fst (pops (length (jitter_buffer st) + 3 + k) (push F3 (push F2 (push F1 st)))) =
      map Some (jitter_buffer st) ++ [Some F1; Some F2; Some F3] ++ repeat None k).
  { intros k.
    destruct (pops_queue _ (push F3 (push F2 (push F1 st))) k Hq) as [Hp _].
    rewrite length_app in Hp. simpl length in Hp.
    rewrite Hp, map_app, <- app_assoc. reflexivity. }
  split; [intros Hempty k; specialize (Hgen k); rewrite Hempty in Hgen; exact Hgen|].
  split; [exact Hgen|].
  intros Hempty. rewrite Hempty in Hq. cbn [app] in Hq.
  set (st3 := push F3 (push F2 (push F1 st))) in *.
  cbn [callbacks].
  rewrite (audio_callback_exact st3 F1 [F2; F3] Hq).
  rewrite (audio_callback_exact (set_jitter_buffer [F2; F3] st3) F2 [F3] eq_refl).
  rewrite (audio_callback_exact
             (set_jitter_buffer [F3] (set_jitter_buffer [F2; F3] st3)) F3 [] eq_refl).
  reflexivity.
Qed.

Lemma C6_fifo_order_witness :
  (length (jitter_buffer initial_state) + 3 <= MAXLEN)%nat /\
  fst (pops 4 (push [[5; 6]] (push [[3; 4]] (push [[1; 2]] initial_state)))) =
  [Some [[1; 2]]; Some [[3; 4]]; Some [[5; 6]]; None].
Proof.
  assert (H : (length (jitter_buffer initial_state) + 3 <= MAXLEN)%nat)
    by (unfold MAXLEN; simpl; lia).
  split; [exact H|].
  exact (proj1 (proj2 (C6_fifo_order initial_state [[1; 2]] [[3; 4]] [[5; 6]] H))
           eq_refl 1%nat).
Defined.

(** ** The ready latch *)

Lemma buffer_ready_push (audio : Chunk) (st : State) :
  buffer_ready (push audio st) =
  ((BUFFER_CHUNKS <=? length (jitter_buffer (push audio st)))%nat || buffer_ready st).
Proof.
  rewrite jitter_buffer_push. unfold push.
  cbn [jitter_buffer set_jitter_buffer buffer_ready].
  destruct (BUFFER_CHUNKS <=? _)%nat; destruct (buffer_ready st) eqn:E;
    simpl; rewrite ?E; reflexivity.
Qed.

(** What one loop iteration can do to the buffer and the latch: nothing,
    or the push of lines 170-173. *)
Lemma receive_packet_cases (st : State) (data : list byte) :
  (jitter_buffer (receive_packet st data) = jitter_buffer st /\
   buffer_ready (receive_packet st data) = buffer_ready st) \/
  (exists audio : Chunk,
      jitter_buffer (receive_packet st data) =
        deque_append MAXLEN audio (jitter_buffer st) /\
      buffer_ready (receive_packet st data) =
        ((BUFFER_CHUNKS <=? length (deque_append MAXLEN audio (jitter_buffer st)))%nat
         || buffer_ready st)).
Proof.
  unfold receive_packet.
  destruct (length data <? HEADER_SIZE)%nat; [auto|].
  pose proof (track_jitter_buffer st (unpack_be32 (firstn HEADER_SIZE data)))
    as (Hq & Hr & _).
  destruct (track st _) as [c st1]. simpl in Hq, Hr.
  assert (Hpush :
    let st2 := match decode_pcm (skipn HEADER_SIZE data) with
               | Some audio => push audio st1
               | None => st1
               end in
    (jitter_buffer st2 = jitter_buffer st /\ buffer_ready st2 = buffer_ready st) \/
    (exists audio : Chunk,
        jitter_buffer st2 = deque_append MAXLEN audio (jitter_buffer st) /\
        buffer_ready st2 =
          ((BUFFER_CHUNKS <=? length (deque_append MAXLEN audio (jitter_buffer st)))%nat
           || buffer_ready st))).
  { destruct (decode_pcm _) as [audio|]; simpl; [|auto].
    right. exists audio.
    rewrite buffer_ready_push, jitter_buffer_push, Hq, Hr. split; reflexivity. }
  destruct c; try exact Hpush. auto.
Qed.

Lemma audio_callback_ready (st : State) (frames : nat) :
  buffer_ready (fst (audio_callback st frames)) = buffer_ready st.
Proof.
  unfold audio_callback, callback_pop, callback_emit.
  destruct (jitter_buffer st) as [|c rest]; simpl; [reflexivity|].
  destruct (length c =? frames)%nat; [reflexivity|].
  destruct (frames <? length c)%nat; reflexivity.
Qed.

Lemma step_ready_mono (st : State) (e : Event) :
  buffer_ready st = true -> buffer_ready (step st e) = true.
Proof.
  intros Hr. destruct e as [data|frames|]; simpl.
  - destruct (running st); [|exact Hr].
    destruct (receive_packet_cases st data) as [[_ E]|(audio & _ & E)]; rewrite E.
    + exact Hr.
    + rewrite Hr. apply orb_true_r.
  - rewrite audio_callback_ready. exact Hr.
  - reflexivity.
Qed.

Lemma run_ready_mono (evs : list Event) :
  forall st, buffer_ready st = true -> buffer_ready (run st evs) = true.
Proof.
  induction evs as [|e evs IH]; intros st Hr; [exact Hr|].
  simpl. apply IH. apply step_ready_mono. exact Hr.
Qed.

(** Between start and stop the latch is set exactly by the step after
    which the buffer holds [BUFFER_CHUNKS] entries, and that step is a
    datagram's. *)
Lemma step_ready_iff (st : State) (e : Event) :
  is_shutdown e = false ->
  buffer_ready st = false ->
  (length (jitter_buffer st) < BUFFER_CHUNKS)%nat ->
  (buffer_ready (step st e) = true <->
   (BUFFER_CHUNKS <= length (jitter_buffer (step st e)))%nat) /\
  (buffer_ready (step st e) = true -> exists data, e = Recv data).
Proof.
  intros He Hr Hq. destruct e as [data|frames|]; simpl; [| |discriminate He].
  - split; [|eauto].
    destruct (running st); [|rewrite Hr; split; [discriminate | lia]].
    destruct (receive_packet_cases st data) as [[Eq Er]|(audio & Eq & Er)];
      rewrite Eq, Er.
    + rewrite Hr. split; [discriminate | lia].
    + rewrite Hr, orb_false_r. apply Nat.leb_le.
  - rewrite audio_callback_ready, Hr.
    pose proof (length_audio_callback st frames).
    split; [split; [discriminate | lia] | discriminate].
Qed.

Lemma streaming_app (a b : list Event) :
  streaming (a ++ b) <-> streaming a /\ streaming b.
Proof. unfold streaming. rewrite forallb_app. apply andb_true_iff. Qed.

Lemma run_app (st : State) (a b : list Event) :
  run st (a ++ b) = run (run st a) b.
Proof. apply fold_left_app. Qed.

Lemma unready_below_threshold (evs : list Event) :
  streaming evs ->
  buffer_ready (run initial_state evs) = false ->
  (length (jitter_buffer (run initial_state evs)) < BUFFER_CHUNKS)%nat.
Proof.
  induction evs as [|e evs IH] using rev_ind; intros Hs Hr.
  - unfold BUFFER_CHUNKS. simpl. lia.
  - apply streaming_app in Hs as [Hs He].
    rewrite run_app in *. simpl in *.
    destruct (buffer_ready (run initial_state evs)) eqn:Hprev.
    + rewrite (step_ready_mono _ e Hprev) in Hr. discriminate.
    + assert (He' : is_shutdown e = false).
      { unfold streaming in He. simpl in He. destruct (is_shutdown e);
          [discriminate | reflexivity]. }
      destruct (step_ready_iff _ e He' Hprev (IH Hs eq_refl)) as [[_ Hset] _].
      destruct (Nat.lt_ge_cases
                  (length (jitter_buffer (step (run initial_state evs) e)))
                  BUFFER_CHUNKS) as [Hlt|Hge]; [exact Hlt|].
      rewrite (Hset Hge) in Hr. discriminate.
Qed.

Lemma ready_iff_filled (evs : list Event) :
  streaming evs ->
  (buffer_ready (run initial_state evs) = true <->
   exists pre post : list Event,
     evs = pre ++ post /\
     (BUFFER_CHUNKS <= length (jitter_buffer (run initial_state pre)))%nat).
Proof.
  intros Hs. split.
  - revert Hs. induction evs as [|e evs IH] using rev_ind; intros Hs Hr;
      [discriminate Hr|].
    apply streaming_app in Hs as [Hs He].
    destruct (buffer_ready (run initial_state evs)) eqn:Hprev.
    + destruct (IH Hs eq_refl) as (pre & post & -> & Hfill).
      exists pre, (post ++ [e]). rewrite app_assoc. auto.
    + exists (evs ++ [e]), []. rewrite app_nil_r. split; [reflexivity|].
      rewrite run_app in *. simpl in *.
      assert (He' : is_shutdown e = false).
      { unfold streaming in He. simpl in He. destruct (is_shutdown e);
          [discriminate | reflexivity]. }
      apply (step_ready_iff _ e He' Hprev (unready_below_threshold evs Hs Hprev)).
      exact Hr.
  - intros (pre & post & -> & Hfill).
    apply streaming_app in Hs as [Hs _].
    rewrite run_app. apply run_ready_mono.
    destruct (buffer_ready (run initial_state pre)) eqn:Hr; [reflexivity|].
    pose proof (unready_below_threshold pre Hs Hr). lia.
Qed.

(** C7, as the code has it.  The latch is never cleared: once set it stays
    set under every later datagram, callback or stop, so it goes from unset
    to set at most once.  Between session start and [shutdown] it is unset
    as long as the buffer holds fewer than [BUFFER_CHUNKS] entries, and the
    step that sets it is the datagram whose push brings the buffer to
    [BUFFER_CHUNKS] entries; a later drain does not change it.  [shutdown]
    also sets it, whatever the buffer holds, so that a waiter is released. *)
Theorem C7_ready_signal :
  (forall (st : State) (evs : list Event),
      buffer_ready st = true -> buffer_ready (run st evs) = true) /\
  (forall evs : list Event,
      streaming evs ->
      buffer_ready (run initial_state evs) = false ->
      (length (jitter_buffer (run initial_state evs)) < BUFFER_CHUNKS)%nat) /\
  (forall (evs : list Event) (e : Event),
      streaming (evs ++ [e]) ->
      buffer_ready (run initial_state evs) = false ->
      (buffer_ready (run initial_state (evs ++ [e])) = true <->
       (BUFFER_CHUNKS <= length (jitter_buffer (run initial_state (evs ++ [e]))))%nat) /\
      (buffer_ready (run initial_state (evs ++ [e])) = true ->
       exists data, e = Recv data)) /\
  (forall evs : list Event,
      streaming evs ->
      (buffer_ready (run initial_state evs) = true <->
       exists pre post : list Event,
         evs = pre ++ post /\
         (BUFFER_CHUNKS <= length (jitter_buffer (run initial_state pre)))%nat)) /\
  (forall st : State, buffer_ready (shutdown st) = true).
Proof.
  split; [intros st evs; apply run_ready_mono|].
  split; [exact unready_below_threshold|].
  split.
  { intros evs e Hs Hr. apply streaming_app in Hs as [Hs He].
    assert (He' : is_shutdown e = false).
    { unfold streaming in He. simpl in He. destruct (is_shutdown e);
        [discriminate | reflexivity]. }
    rewrite run_app. simpl.
    apply (step_ready_iff _ e He' Hr (unready_below_threshold evs Hs Hr)). }
  split; [exact ready_iff_filled|].
  intros st. reflexivity.
Qed.

Lemma C7_ready_signal_witness :
  streaming [Recv (packet 0 [x01; x00; x02; x00]); Callback 1;
             Recv (packet 1 [x03; x00; x04; x00])] /\
  buffer_ready
    (run initial_state
       [Recv (packet 0 [x01; x00; x02; x00]); Callback 1;
        Recv (packet 1 [x03; x00; x04; x00])]) = false /\
  (length (jitter_buffer
     (run initial_state
        [Recv (packet 0 [x01; x00; x02; x00]); Callback 1;
         Recv (packet 1 [x03; x00; x04; x00])])) < BUFFER_CHUNKS)%nat.
Proof.
  assert (Hs : streaming [Recv (packet 0 [x01; x00; x02; x00]); Callback 1;
                          Recv (packet 1 [x03; x00; x04; x00])]) by reflexivity.
  assert (Hr : buffer_ready
    (run initial_state
       [Recv (packet 0 [x01; x00; x02; x00]); Callback 1;
        Recv (packet 1 [x03; x00; x04; x00])]) = false) by reflexivity.
  split; [exact Hs|]. split; [exact Hr|].
  exact (proj1 (proj2 C7_ready_signal) _ Hs Hr).
Defined.

(** C7 as stated fails: a stop before any datagram sets the latch while
    the buffer is empty, so the latch is set without any push having
    brought the buffer to the fill threshold. *)
Lemma C7_counterexample :
  buffer_ready initial_state = false /\
  buffer_ready (run initial_state [Shutdown]) = true /\
  jitter_buffer (run initial_state [Shutdown]) = [] /\
  (length (jitter_buffer (run initial_state [Shutdown])) < BUFFER_CHUNKS)%nat.
Proof. repeat split. unfold BUFFER_CHUNKS. simpl. lia. Qed.

(** ** Playback callback *)

Lemma length_silence (frames : nat) :
  length (silence frames) = frames /\
  Forall (fun row => row = repeat 0 CHANNELS) (silence frames).
Proof.
  unfold silence. split; [apply repeat_length|].
  apply Forall_forall. intros row Hin. exact (repeat_spec _ _ _ Hin).
Qed.

Lemma audio_callback_empty (st : State) (frames : nat) :
  jitter_buffer st = [] ->
  callback_pop st = (None, st) /\ audio_callback st frames = (st, silence frames).
Proof.
  intros Hq. unfold audio_callback, callback_pop. rewrite Hq. simpl.
  rewrite <- Hq, set_jitter_buffer_same. auto.
Qed.

(** C8. With an empty jitter buffer the pop reports empty and leaves the
    state as it is, and the callback writes [frames] rows of zeros, one
    zero per channel; any number of successive invocations, whatever frame
    counts they request, all do the same and the state never changes. *)
Theorem C8_underrun_idempotence (st : State) :
  jitter_buffer st = [] ->
  callback_pop st = (None, st) /\
  (forall frames : nat,
      audio_callback st frames = (st, silence frames) /\
      length (silence frames) = frames /\
      Forall (fun row => row = repeat 0 CHANNELS) (silence frames)) /\
  (forall requests : list nat,
      callbacks st requests = (st, map silence requests)).
Proof.
  intros Hq.
  split; [exact (proj1 (audio_callback_empty st 0 Hq))|].
  split.
  - intros frames. split; [exact (proj2 (audio_callback_empty st frames Hq))|].
    apply length_silence.
  - induction requests as [|frames rest IH]; [reflexivity|].
    simpl. rewrite (proj2 (audio_callback_empty st frames Hq)), IH. reflexivity.
Qed.

Lemma C8_underrun_idempotence_witness :
  jitter_buffer initial_state = [] /\
  callbacks initial_state [3%nat; 3%nat] =
  (initial_state, [[[0; 0]; [0; 0]; [0; 0]]; [[0; 0]; [0; 0]; [0; 0]]]).
Proof.
  assert (H : jitter_buffer initial_state = []) by reflexivity.
  split; [exact H|].
  exact (proj2 (proj2 (C8_underrun_idempotence initial_state H)) [3%nat; 3%nat]).
Defined.

(** C9. When the frame at the head of the buffer has more rows than
    requested, the callback writes its first [frames] rows and puts the
    rest back at the head of the buffer: the next pop returns exactly that
    remainder, ahead of everything that was queued behind it.  The
    push-back lands at the head whatever the buffer holds by then. *)
Theorem C9_oversize_pushback (st : State) (c : Chunk) (rest : list Chunk)
    (frames : nat) :
  jitter_buffer st = c :: rest ->
  (length (jitter_buffer st) <= MAXLEN)%nat ->
  (frames < length c)%nat ->
  audio_callback st frames =
    (set_jitter_buffer (skipn frames c :: rest) st, firstn frames c) /\
  length (firstn frames c) = frames /\
  firstn frames c ++ skipn frames c = c /\
  fst (callback_pop (fst (audio_callback st frames))) = Some (skipn frames c) /\
  jitter_buffer (snd (callback_pop (fst (audio_callback st frames)))) = rest /\
  (forall st' : State,
      snd (callback_emit (Some c) frames st') = firstn frames c /\
      hd_error (jitter_buffer (fst (callback_emit (Some c) frames st')))
      = Some (skipn frames c)).
Proof.
  intros Hq Hlen Hmore.
  assert (Hne : (length c =? frames)%nat = false) by (apply Nat.eqb_neq; lia).
  assert (Hlt : (frames <? length c)%nat = true) by (apply Nat.ltb_lt; exact Hmore).
  assert (E : audio_callback st frames =
              (set_jitter_buffer (skipn frames c :: rest) st, firstn frames c)).
  { unfold audio_callback, callback_pop, callback_emit. rewrite Hq. simpl.
    rewrite Hne, Hlt. rewrite deque_appendleft_room; [reflexivity|].
    rewrite Hq in Hlen. exact Hlen. }
  split; [exact E|]. rewrite E.
  split; [rewrite length_firstn; lia|].
  split; [apply firstn_skipn|].
  split; [reflexivity|]. split; [reflexivity|].
  intros st'. unfold callback_emit. rewrite Hne, Hlt. simpl.
  split; [reflexivity | apply deque_appendleft_head].
Qed.

Lemma C9_oversize_pushback_witness :
  jitter_buffer (set_jitter_buffer [[[1; 2]; [3; 4]; [5; 6]]; [[7; 8]]] initial_state)
  = [[1; 2]; [3; 4]; [5; 6]] :: [[[7; 8]]] /\
  audio_callback
    (set_jitter_buffer [[[1; 2]; [3; 4]; [5; 6]]; [[7; 8]]] initial_state) 2
  = (set_jitter_buffer [[[5; 6]]; [[7; 8]]] initial_state, [[1; 2]; [3; 4]]).
Proof.
  assert (Hq : jitter_buffer
            (set_jitter_buffer [[[1; 2]; [3; 4]; [5; 6]]; [[7; 8]]] initial_state)
          = [[1; 2]; [3; 4]; [5; 6]] :: [[[7; 8]]]) by reflexivity.
  split; [exact Hq|].
  refine (proj1 (C9_oversize_pushback _ _ _ 2%nat Hq _ _)).
  - unfold MAXLEN. simpl. lia.
  - simpl. lia.
Defined.

(** C10. When the frame at the head of the buffer has fewer rows than
    requested, the callback takes it off the buffer, writes zeros over the
    whole requested span and does not put the frame back: none of its
    samples are written and it is gone from the buffer. *)
Theorem C10_undersize_discarded (st : State) (c : Chunk) (rest : list Chunk)
    (frames : nat) :
  jitter_buffer st = c :: rest ->
  (1 <= length c)%nat ->
  (length c < frames)%nat ->
  audio_callback st frames = (set_jitter_buffer rest st, silence frames) /\
  length (silence frames) = frames /\
  Forall (fun row => row = repeat 0 CHANNELS) (silence frames) /\
  jitter_buffer (fst (audio_callback st frames)) = rest.
Proof.
  intros Hq _ Hless.
  assert (Hne : (length c =? frames)%nat = false) by (apply Nat.eqb_neq; lia).
  assert (Hlt : (frames <? length c)%nat = false) by (apply Nat.ltb_ge; lia).
  assert (E : audio_callback st frames = (set_jitter_buffer rest st, silence frames)).
  { unfold audio_callback, callback_pop, callback_emit. rewrite Hq. simpl.
    rewrite Hne, Hlt. reflexivity. }
  rewrite E. split; [reflexivity|].
  destruct (length_silence frames) as [Hl Hz]. auto.
Qed.

Lemma C10_undersize_discarded_witness :
  jitter_buffer (set_jitter_buffer [[[1; 2]]; [[7; 8]; [9; 10]]] initial_state)
  = [[1; 2]] :: [[[7; 8]; [9; 10]]] /\
  audio_callback (set_jitter_buffer [[[1; 2]]; [[7; 8]; [9; 10]]] initial_state) 2
  = (set_jitter_buffer [[[7; 8]; [9; 10]]] initial_state, [[0; 0]; [0; 0]]).
Proof.
  assert (Hq : jitter_buffer
            (set_jitter_buffer [[[1; 2]]; [[7; 8]; [9; 10]]] initial_state)
          = [[1; 2]] :: [[[7; 8]; [9; 10]]]) by reflexivity.
  split; [exact Hq|].
  refine (proj1 (C10_undersize_discarded _ _ _ 2%nat Hq _ _)); simpl; lia.
Defined.

(** * Further properties of the code *)

(** ** Header *)

Lemma byte_of_Z_val (b : byte) : byte_of_Z (byte_val b) = b.
Proof.
  unfold byte_of_Z. rewrite Z.mod_small by apply byte_val_range.
  unfold byte_val. rewrite N2Z.id, Byte.of_to_N. reflexivity.
Qed.

Lemma byte_of_Z_mod (z : Z) : byte_of_Z (z mod 256) = byte_of_Z z.
Proof. unfold byte_of_Z. rewrite Z.mod_mod by lia. reflexivity. Qed.

Lemma byte_of_Z_digit (z : Z) (b : byte) :
  z mod 256 = byte_val b -> byte_of_Z z = b.
Proof. intros E. rewrite <- byte_of_Z_mod, E. apply byte_of_Z_val. Qed.

Lemma length_firstn_header (data : list byte) :
  (HEADER_SIZE <= length data)%nat ->
  exists b0 b1 b2 b3, firstn HEADER_SIZE data = [b0; b1; b2; b3].
Proof.
  intros H. destruct data as [|b0 [|b1 [|b2 [|b3 rest]]]];
    try (simpl in H; unfold HEADER_SIZE in H; lia).
  exists b0, b1, b2, b3. reflexivity.
Qed.

(** X1. The sequence number read from any datagram that has a header lies
    in [0, 2^32); re-packing it gives back the four header bytes, and
    unpacking a packed number in that range gives back the number. *)
Theorem header_roundtrip :
  (forall data : list byte,
      (HEADER_SIZE <= length data)%nat ->
      0 <= unpack_be32 (firstn HEADER_SIZE data) < WRAP /\
      pack_be32 (unpack_be32 (firstn HEADER_SIZE data)) = firstn HEADER_SIZE data) /\
  (forall s : Z, 0 <= s < WRAP -> unpack_be32 (pack_be32 s) = s).
Proof.
  split; [|exact unpack_pack_be32].
  intros data Hlen.
  destruct (length_firstn_header data Hlen) as (b0 & b1 & b2 & b3 & ->).
  split; [apply unpack_be32_range|].
  rewrite unpack_be32_four. unfold pack_be32.
  pose proof (byte_val_range b0). pose proof (byte_val_range b1).
  pose proof (byte_val_range b2). pose proof (byte_val_range b3).
  f_equal; [|f_equal; [|f_equal; [|f_equal]]]; apply byte_of_Z_digit;
    Z.to_euclidean_division_equations; lia.
Qed.

Lemma header_roundtrip_witness :
  (HEADER_SIZE <= length [xde; xad; xbe; xef; x01; x00])%nat /\
  unpack_be32 (firstn HEADER_SIZE [xde; xad; xbe; xef; x01; x00]) = 3735928559 /\
  pack_be32 3735928559 = [xde; xad; xbe; xef].
Proof.
  assert (H : (HEADER_SIZE <= length [xde; xad; xbe; xef; x01; x00])%nat)
    by (unfold HEADER_SIZE; simpl; lia).
  split; [exact H|]. split; [reflexivity|].
  exact (proj2 (proj1 header_roundtrip [xde; xad; xbe; xef; x01; x00] H)).
Defined.

(** ** Tracker *)

Lemma track_counters_grow (st : State) (seq : Z) :
  dropped_packets st <= dropped_packets (snd (track st seq)) /\
  reordered_packets st <= reordered_packets (snd (track st seq)).
Proof.
  unfold track.
  destruct (0 <=? last_seq st); [|simpl; lia].
  destruct (negb _); [|simpl; lia].
  destruct (0x7FFFFFFF <? _); [simpl; lia|].
  destruct (Z.ltb_spec 0 (Z.land (seq - last_seq st) 0xFFFFFFFF - 1)); simpl; lia.
Qed.

Lemma stats_audio_callback (st : State) (frames : nat) :
  stats (fst (audio_callback st frames)) = stats st /\
  running (fst (audio_callback st frames)) = running st.
Proof.
  unfold audio_callback, callback_pop, callback_emit.
  destruct (jitter_buffer st) as [|c rest]; simpl; [auto|].
  destruct (length c =? frames)%nat; [auto|].
  destruct (frames <? length c)%nat; auto.
Qed.

Lemma stats_step (st : State) (e : Event) :
  stats (step st e) = stats st \/
  exists data, e = Recv data /\ (HEADER_SIZE <= length data)%nat /\
    stats (step st e) = stats (snd (track st (unpack_be32 (firstn HEADER_SIZE data)))).
Proof.
  destruct e as [data|frames|]; simpl.
  - destruct (running st); [|auto].
    destruct (Nat.lt_ge_cases (length data) HEADER_SIZE) as [Hs|Hl].
    + left. unfold receive_packet.
      destruct (Nat.ltb_spec (length data) HEADER_SIZE); [reflexivity | lia].
    + right. exists data. split; [reflexivity|]. split; [exact Hl|].
      apply receive_packet_stats. exact Hl.
  - left. apply stats_audio_callback.
  - left. reflexivity.
Qed.

Lemma step_counters_grow (st : State) (e : Event) :
  dropped_packets st <= dropped_packets (step st e) /\
  reordered_packets st <= reordered_packets (step st e).
Proof.
  destruct (stats_step st e) as [E|(data & _ & _ & E)]; unfold stats in E.
  - injection E as _ -> ->. lia.
  - injection E as _ -> ->. apply track_counters_grow.
Qed.

Lemma run_counters_grow (evs : list Event) :
  forall st : State,
    dropped_packets st <= dropped_packets (run st evs) /\
    reordered_packets st <= reordered_packets (run st evs).
Proof.
  induction evs as [|e evs IH]; intros st; simpl; [lia|].
  pose proof (step_counters_grow st e). pose proof (IH (step st e)). lia.
Qed.

(** X2. The two statistics never decrease: over any sequence of
    datagrams, callbacks and stop requests, from any state,
    [dropped_packets] and [reordered_packets] end at least where they
    started. *)
Theorem counters_monotone (evs : list Event) (st : State) :
  dropped_packets st <= dropped_packets (run st evs) /\
  reordered_packets st <= reordered_packets (run st evs).
Proof. apply run_counters_grow. Qed.

Lemma track_last_seq_range (st : State) (seq : Z) :
  0 <= seq < WRAP ->
  last_seq st = -1 \/ 0 <= last_seq st < WRAP ->
  last_seq (snd (track st seq)) = -1 \/ 0 <= last_seq (snd (track st seq)) < WRAP.
Proof.
  intros Hseq Hst. unfold track.
  destruct (0 <=? last_seq st); [|simpl; auto].
  destruct (negb _); [|simpl; auto].
  destruct (0x7FFFFFFF <? _); [simpl; exact Hst|].
  destruct (0 <? _); simpl; auto.
Qed.

(** X3. In every state a session can reach, [last_seq] is either the
    initial [-1] or a 32-bit sequence number, and both counters are
    non-negative. *)
Theorem tracker_invariant (evs : list Event) :
  (last_seq (run initial_state evs) = -1 \/
   0 <= last_seq (run initial_state evs) < WRAP) /\
  0 <= dropped_packets (run initial_state evs) /\
  0 <= reordered_packets (run initial_state evs).
Proof.
  split; [|exact (run_counters_grow evs initial_state)].
  induction evs as [|e evs IH] using rev_ind; [left; reflexivity|].
  rewrite run_app. simpl.
  destruct (stats_step (run initial_state evs) e) as [E|(data & _ & Hl & E)].
  - apply (f_equal (fun t => fst (fst t))) in E. cbn [stats fst] in E.
    rewrite E. exact IH.
  - destruct (length_firstn_header data Hl) as (b0 & b1 & b2 & b3 & Hh).
    rewrite Hh in E.
    apply (f_equal (fun t => fst (fst t))) in E. cbn [stats fst] in E.
    rewrite E. apply track_last_seq_range; [apply unpack_be32_range | exact IH].
Qed.

Lemma track_delta (st : State) (seq : Z) :
  0 <= last_seq st < WRAP ->
  0 <= seq < WRAP ->
  ((seq - last_seq st) mod WRAP = 1 ->
   track st seq = (InOrder, set_last_seq seq st)) /\
  ((seq - last_seq st) mod WRAP = 0 ->
   seq = last_seq st /\ track st seq = (Gap (-1), set_last_seq seq st)) /\
  (2 <= (seq - last_seq st) mod WRAP <= 2147483647 ->
   track st seq =
   (Gap ((seq - last_seq st) mod WRAP - 1),
    set_last_seq seq (add_dropped ((seq - last_seq st) mod WRAP - 1) st))) /\
  (2147483648 <= (seq - last_seq st) mod WRAP ->
   track st seq = (Reorder, add_reordered 1 st)).
Proof.
  intros Hs Hseq. unfold WRAP in *.
  assert (Hexp : (last_seq st + 1) mod 4294967296 =
                 if last_seq st =? 4294967295 then 0 else last_seq st + 1).
  { destruct (Z.eqb_spec (last_seq st) 4294967295) as [->|Hne]; [reflexivity|].
    apply Z.mod_small. lia. }
  assert (Hd : (seq - last_seq st) mod 4294967296 =
               if seq <? last_seq st then seq - last_seq st + 4294967296
               else seq - last_seq st).
  { destruct (Z.ltb_spec seq (last_seq st)) as [Hlt|Hge].
    - rewrite <- (Z.mod_add (seq - last_seq st) 1 4294967296) by lia.
      rewrite Z.mod_small by lia. lia.
    - apply Z.mod_small. lia. }
  unfold track.
  destruct (Z.leb_spec 0 (last_seq st)) as [_|]; [|lia].
  rewrite !land_mask32, Hexp, Hd.
  change 0x7FFFFFFF with 2147483647.
  destruct (Z.eqb_spec (last_seq st) 4294967295) as [Hmax|Hmax];
    destruct (Z.ltb_spec seq (last_seq st)) as [Hlt|Hge];
    (split; [|split; [|split]]); intros Hcase; try split;
    repeat match goal with
    | |- context [?a =? ?b] => destruct (Z.eqb_spec a b)
    | |- context [?a <? ?b] => destruct (Z.ltb_spec a b)
    end; cbn [negb]; try lia; try reflexivity.
  all: replace (seq - last_seq st - 1) with (-1) by lia; reflexivity.
Qed.

(** X4. With a sequence number already observed, the branch a datagram
    takes is settled by its distance [(seq - last_seq) mod 2^32]: distance
    1 is in order; distance 0 (the same number again) runs through the gap
    branch with nothing counted; a distance from 2 to [2^31 - 1] counts
    distance minus one as dropped; any distance of [2^31] or more, a far
    forward jump included, is counted as one reordered datagram and leaves
    [last_seq] alone. *)
Theorem classification_by_distance (st : State) (seq : Z) :
  0 <= last_seq st < WRAP ->
  0 <= seq < WRAP ->
  ((seq - last_seq st) mod WRAP = 1 ->
   track st seq = (InOrder, set_last_seq seq st)) /\
  ((seq - last_seq st) mod WRAP = 0 ->
   seq = last_seq st /\ track st seq = (Gap (-1), set_last_seq seq st)) /\
  (2 <= (seq - last_seq st) mod WRAP <= 2147483647 ->
   track st seq =
   (Gap ((seq - last_seq st) mod WRAP - 1),
    set_last_seq seq (add_dropped ((seq - last_seq st) mod WRAP - 1) st))) /\
  (2147483648 <= (seq - last_seq st) mod WRAP ->
   track st seq = (Reorder, add_reordered 1 st)).
Proof. apply track_delta. Qed.

Lemma classification_by_distance_witness :
  0 <= last_seq (set_last_seq 10 initial_state) < WRAP /\
  0 <= 2147483658 < WRAP /\
  2147483648 <= (2147483658 - last_seq (set_last_seq 10 initial_state)) mod WRAP /\
  track (set_last_seq 10 initial_state) 2147483658 =
  (Reorder, add_reordered 1 (set_last_seq 10 initial_state)).
Proof.
  assert (H1 : 0 <= last_seq (set_last_seq 10 initial_state) < WRAP)
    by (unfold WRAP; simpl; lia).
  assert (H2 : 0 <= 2147483658 < WRAP) by (unfold WRAP; lia).
  assert (H3 : 2147483648 <=
               (2147483658 - last_seq (set_last_seq 10 initial_state)) mod WRAP)
    by (vm_compute; discriminate).
  split; [exact H1|]. split; [exact H2|]. split; [exact H3|].
  exact (proj2 (proj2 (proj2
    (classification_by_distance (set_last_seq 10 initial_state) 2147483658 H1 H2)))
    H3).
Defined.

(** X5. A datagram that repeats the last accepted sequence number is not
    recognised as a duplicate: neither counter moves, [last_seq] stays, and
    when its payload decodes the audio is queued once more. *)
Theorem duplicate_is_queued (st : State) (payload : list byte) (audio : Chunk) :
  0 <= last_seq st < WRAP ->
  decode_pcm payload = Some audio ->
  stats (receive_packet st (packet (last_seq st) payload)) = stats st /\
  jitter_buffer (receive_packet st (packet (last_seq st) payload)) =
  deque_append MAXLEN audio (jitter_buffer st).
Proof.
  intros Hs Hdec.
  destruct (track_delta st (last_seq st) Hs Hs) as (_ & Hdup & _).
  destruct Hdup as [_ Htr]; [rewrite Z.sub_diag; reflexivity|].
  rewrite receive_packet_packet by exact Hs.
  rewrite Htr, Hdec. split.
  - rewrite push_stats. destruct st; reflexivity.
  - rewrite jitter_buffer_push. reflexivity.
Qed.

Lemma duplicate_is_queued_witness :
  0 <= last_seq (receive_packet initial_state (packet 7 [x01; x00; x02; x00])) < WRAP /\
  decode_pcm [x01; x00; x02; x00] = Some [[1; 2]] /\
  jitter_buffer
    (receive_packet (receive_packet initial_state (packet 7 [x01; x00; x02; x00]))
       (packet 7 [x01; x00; x02; x00])) = [[[1; 2]]; [[1; 2]]].
Proof.
  assert (H1 : 0 <= last_seq (receive_packet initial_state
                                (packet 7 [x01; x00; x02; x00])) < WRAP)
    by (vm_compute; split; [discriminate | reflexivity]).
  assert (H2 : decode_pcm [x01; x00; x02; x00] = Some [[1; 2]]) by reflexivity.
  split; [exact H1|]. split; [exact H2|].
  exact (proj2 (duplicate_is_queued
                  (receive_packet initial_state (packet 7 [x01; x00; x02; x00]))
                  [x01; x00; x02; x00] [[1; 2]] H1 H2)).
Defined.

Lemma seqs_from_range (steps : list Z) :
  forall s : Z, Forall (fun x => 0 <= x < WRAP) (seqs_from s steps).
Proof.
  induction steps as [|k steps IH]; intros s; simpl; constructor;
    [apply mod_WRAP_range | apply IH].
Qed.

Lemma last_cons_default {A} (a d : A) (l : list A) : last (a :: l) d = last l a.
Proof.
  revert a d. induction l as [|b l IH]; intros a d; [reflexivity|].
  change (last (a :: b :: l) d) with (last (b :: l) d).
  rewrite (IH b d), (IH b a). reflexivity.
Qed.

Lemma track_step_forward (st : State) (k : Z) :
  0 <= last_seq st < WRAP ->
  1 <= k <= 2147483647 ->
  stats (snd (track st ((last_seq st + k) mod WRAP))) =
  ((last_seq st + k) mod WRAP, dropped_packets st + (k - 1), reordered_packets st).
Proof.
  intros Hs Hk. unfold WRAP in *.
  destruct (Z.eq_dec k 1) as [->|Hne].
  - rewrite track_in_order by exact Hs. unfold stats. simpl.
    rewrite Z.add_0_r. reflexivity.
  - rewrite track_gap by (try exact Hs; lia). reflexivity.
Qed.

Lemma track_all_steps (steps : list Z) :
  Forall (fun k => 1 <= k <= 2147483647) steps ->
  forall st : State,
    0 <= last_seq st < WRAP ->
    stats (track_all st (seqs_from (last_seq st) steps)) =
    (last (seqs_from (last_seq st) steps) (last_seq st),
     dropped_packets st + missing steps, reordered_packets st).
Proof.
  induction 1 as [|k steps Hk _ IH]; intros st Hs.
  - unfold stats, missing. simpl. rewrite Z.add_0_r. reflexivity.
  - cbn [seqs_from track_all fold_left].
    pose proof (track_step_forward st k Hs Hk) as E.
    set (st' := snd (track st ((last_seq st + k) mod WRAP))) in *.
    unfold stats in E. injection E as El Ed Er.
    specialize (IH st'). rewrite El in IH.
    change (fold_left (fun st0 seq => snd (track st0 seq))
              (seqs_from ((last_seq st + k) mod WRAP) steps) st')
      with (track_all st' (seqs_from ((last_seq st + k) mod WRAP) steps)).
    rewrite IH by apply mod_WRAP_range.
    rewrite last_cons_default, Ed, Er.
    unfold missing. cbn [fold_right]. f_equal. f_equal. lia.
Qed.

(** X6. For a stream that starts at any sequence number and moves forward
    by at most [2^31 - 1] from each datagram to the next (wrapping at
    [2^32]), whatever the payloads, the session ends with [last_seq] at the
    last number received, [dropped_packets] equal to the total of numbers
    skipped between consecutive datagrams, and [reordered_packets] zero. *)
Theorem dropped_counts_missing (pl : Z -> list byte) (s0 : Z) (steps : list Z) :
  0 <= s0 < WRAP ->
  Forall (fun k => 1 <= k <= 2147483647) steps ->
  stats (receive_all initial_state (datagrams pl (s0 :: seqs_from s0 steps))) =
  (last (seqs_from s0 steps) s0, missing steps, 0).
Proof.
  intros Hs Hsteps.
  rewrite (stats_receive_all_datagrams pl (s0 :: seqs_from s0 steps)
             (Forall_cons _ Hs (seqs_from_range steps s0))
             initial_state initial_state eq_refl).
  change (track_all initial_state (s0 :: seqs_from s0 steps))
    with (track_all (set_last_seq s0 initial_state)
            (seqs_from (last_seq (set_last_seq s0 initial_state)) steps)).
  rewrite (track_all_steps steps Hsteps (set_last_seq s0 initial_state) Hs).
  reflexivity.
Qed.

Lemma dropped_counts_missing_witness :
  0 <= 4294967294 < WRAP /\
  Forall (fun k => 1 <= k <= 2147483647) [1; 3; 1; 2] /\
  stats (receive_all initial_state
           (datagrams (fun _ => [x01; x00; x02; x00])
              (4294967294 :: seqs_from 4294967294 [1; 3; 1; 2]))) = (5, 3, 0).
Proof.
  assert (H1 : 0 <= 4294967294 < WRAP) by (unfold WRAP; lia).
  assert (H2 : Forall (fun k => 1 <= k <= 2147483647) [1; 3; 1; 2])
    by (repeat constructor; lia).
  split; [exact H1|]. split; [exact H2|].
  exact (dropped_counts_missing (fun _ => [x01; x00; x02; x00]) 4294967294
           [1; 3; 1; 2] H1 H2).
Defined.

(** ** PCM payload *)

Lemma int16_le_range (lo hi : byte) : int16_range (int16_le lo hi).
Proof.
  unfold int16_range, int16_le.
  pose proof (byte_val_range lo). pose proof (byte_val_range hi).
  destruct (Z.leb_spec 32768 (byte_val lo + 256 * byte_val hi)); lia.
Qed.

Lemma int16_le_bytes (z : Z) :
  int16_range z -> int16_le (byte_of_Z z) (byte_of_Z (z / 256)) = z.
Proof.
  unfold int16_range, int16_le. intros Hz. rewrite !byte_val_of_Z.
  destruct (Z.leb_spec 32768 (z mod 256 + 256 * ((z / 256) mod 256)));
    Z.to_euclidean_division_equations; lia.
Qed.

Lemma frombuffer_encode (samples : list Z) :
  Forall int16_range samples ->
  frombuffer (flat_map int16_bytes samples) = Some samples.
Proof.
  induction 1 as [|z samples Hz _ IH]; [reflexivity|].
  cbn [flat_map int16_bytes app frombuffer].
  rewrite IH, int16_le_bytes by exact Hz. reflexivity.
Qed.

Lemma frombuffer_range (n : nat) :
  forall (bs : list byte) (samples : list Z),
    (length bs <= n)%nat ->
    frombuffer bs = Some samples -> Forall int16_range samples.
Proof.
  induction n as [|n IH]; intros bs samples Hn Hfb.
  - destruct bs; [|simpl in Hn; lia]. injection Hfb as <-. constructor.
  - destruct bs as [|lo [|hi rest]].
    + injection Hfb as <-. constructor.
    + discriminate Hfb.
    + cbn [frombuffer] in Hfb.
      destruct (frombuffer rest) as [tail|] eqn:E; [|discriminate].
      injection Hfb as <-. constructor; [apply int16_le_range|].
      apply (IH rest tail); [simpl in Hn; lia | exact E].
Qed.

Lemma in_firstn {A} (n : nat) (l : list A) (x : A) : In x (firstn n l) -> In x l.
Proof. intros H. rewrite <- (firstn_skipn n l). apply in_or_app. auto. Qed.

Lemma in_skipn {A} (n : nat) (l : list A) (x : A) : In x (skipn n l) -> In x l.
Proof. intros H. rewrite <- (firstn_skipn n l). apply in_or_app. auto. Qed.

Lemma reshape_Forall (P : Z -> Prop) (rows cols : nat) :
  forall samples : list Z,
    Forall P samples -> Forall (Forall P) (reshape rows cols samples).
Proof.
  induction rows as [|r IH]; intros samples H; simpl; constructor.
  - apply Forall_forall. intros x Hx.
    rewrite Forall_forall in H. apply H. exact (in_firstn _ _ _ Hx).
  - apply IH. apply Forall_forall. intros x Hx.
    rewrite Forall_forall in H. apply H. exact (in_skipn _ _ _ Hx).
Qed.

Lemma reshape_concat (cols : nat) (audio : Chunk) :
  Forall (fun row => length row = cols) audio ->
  reshape (length audio) cols (concat audio) = audio /\
  length (concat audio) = (length audio * cols)%nat.
Proof.
  induction 1 as [|row audio Hrow _ [IH1 IH2]]; [split; reflexivity|].
  cbn [length concat reshape]. subst cols. split.
  - rewrite firstn_app, Nat.sub_diag, firstn_all, skipn_app, Nat.sub_diag, skipn_all.
    cbn [firstn skipn app]. rewrite app_nil_r, IH1. reflexivity.
  - rewrite length_app, IH2. simpl. reflexivity.
Qed.

Lemma decode_pcm_inv (bs : list byte) (audio : Chunk) :
  decode_pcm bs = Some audio ->
  exists samples : list Z,
    frombuffer bs = Some samples /\
    (CHANNELS <= length samples)%nat /\
    audio = reshape (length samples / CHANNELS) CHANNELS
              (firstn (length samples / CHANNELS * CHANNELS) samples).
Proof.
  unfold decode_pcm. intros H.
  destruct (length bs <? 2)%nat; [discriminate|].
  destruct (frombuffer bs) as [samples|]; [|discriminate].
  exists samples. split; [reflexivity|].
  destruct (Nat.eqb_spec (length samples / CHANNELS) 0) as [|Hne]; [discriminate|].
  injection H as <-. split; [|reflexivity].
  destruct (Nat.lt_ge_cases (length samples) CHANNELS) as [Hlt|Hge]; [|exact Hge].
  rewrite (Nat.div_small _ _ Hlt) in Hne. congruence.
Qed.

Lemma decode_pcm_shape (bs : list byte) (audio : Chunk) :
  decode_pcm bs = Some audio ->
  well_shaped audio /\
  Forall (Forall int16_range) audio /\
  length audio = (length bs / (2 * CHANNELS))%nat.
Proof.
  intros Hdec.
  destruct (decode_pcm_inv bs audio Hdec) as (samples & Hfb & Hn & Haudio).
  destruct (decode_pcm_even bs samples Hfb Hn) as (audio' & Hd' & Hlen & Hrows & _).
  rewrite Hdec in Hd'. injection Hd' as <-.
  pose proof (frombuffer_length (length bs) bs (le_n _)) as Hbs. rewrite Hfb in Hbs.
  split; [|split].
  - split; [|exact Hrows].
    intros ->. cbn [length] in Hlen. symmetry in Hlen.
    apply Nat.div_small_iff in Hlen; [lia | discriminate].
  - rewrite Haudio. apply reshape_Forall.
    apply Forall_forall. intros x Hx. apply in_firstn in Hx.
    pose proof (frombuffer_range (length bs) bs samples (le_n _) Hfb) as Hr.
    rewrite Forall_forall in Hr. exact (Hr x Hx).
  - rewrite Hlen, Hbs. symmetry. apply Nat.Div0.div_mul_cancel_l; discriminate.
Qed.

(** X7. What the sender encodes is what the receiver decodes: a block of
    at least one row, [CHANNELS] samples per row, every sample a signed
    16-bit value, written as little-endian byte pairs, decodes to that very
    block. *)
Theorem decode_encode_pcm (audio : Chunk) :
  well_shaped audio ->
  Forall (Forall int16_range) audio ->
  decode_pcm (encode_pcm audio) = Some audio.
Proof.
  intros [Hne Hrows] Hrange.
  destruct (reshape_concat CHANNELS audio Hrows) as [Hre Hlen].
  assert (Hfb : frombuffer (encode_pcm audio) = Some (concat audio)).
  { apply frombuffer_encode. apply Forall_concat. exact Hrange. }
  pose proof (frombuffer_length _ (encode_pcm audio) (le_n _)) as Hbytes.
  rewrite Hfb in Hbytes.
  assert (Hpos : (1 <= length audio)%nat)
    by (destruct audio; [congruence | simpl; lia]).
  unfold decode_pcm. rewrite Hfb.
  destruct (Nat.ltb_spec (length (encode_pcm audio)) 2) as [Hshort|_];
    [unfold CHANNELS in *; lia|].
  rewrite Hlen, Nat.div_mul by discriminate.
  destruct (Nat.eqb_spec (length audio) 0) as [|_]; [lia|].
  rewrite <- Hlen, firstn_all, Hre. reflexivity.
Qed.

Lemma decode_encode_pcm_witness :
  well_shaped [[-32768; 32767]; [-1; 0]] /\
  Forall (Forall int16_range) [[-32768; 32767]; [-1; 0]] /\
  decode_pcm (encode_pcm [[-32768; 32767]; [-1; 0]]) = Some [[-32768; 32767]; [-1; 0]].
Proof.
  assert (H1 : well_shaped [[-32768; 32767]; [-1; 0]])
    by (split; [discriminate | repeat constructor]).
  assert (H2 : Forall (Forall int16_range) [[-32768; 32767]; [-1; 0]])
    by (repeat constructor; unfold int16_range; lia).
  split; [exact H1|]. split; [exact H2|].
  exact (decode_encode_pcm _ H1 H2).
Defined.

(** X8. A payload yields a frame exactly when its byte count is even and
    it holds at least one sample per channel.  The block then has
    [bytes / (2 * CHANNELS)] rows, at least one, each of [CHANNELS]
    samples, and every sample lies in the signed 16-bit range. *)
Theorem decode_pcm_accepts (payload : list byte) :
  (decode_pcm payload <> None <->
   Nat.even (length payload) = true /\ (2 * CHANNELS <= length payload)%nat) /\
  (forall audio : Chunk,
      decode_pcm payload = Some audio ->
      well_shaped audio /\
      Forall (Forall int16_range) audio /\
      length audio = (length payload / (2 * CHANNELS))%nat).
Proof.
  split; [|intros audio; apply decode_pcm_shape].
  split.
  - intros Hsome. destruct (decode_pcm payload) as [audio|] eqn:Hdec; [|congruence].
    destruct (decode_pcm_inv payload audio Hdec) as (samples & Hfb & Hn & _).
    pose proof (frombuffer_length _ payload (le_n _)) as Hbs. rewrite Hfb in Hbs.
    split; [rewrite Hbs, Nat.even_mul; reflexivity | lia].
  - intros [Heven Hlen].
    destruct (frombuffer_even payload Heven) as (samples & Hfb & Hl).
    destruct (decode_pcm_even payload samples Hfb) as (audio & Hd & _); [lia|].
    rewrite Hd. discriminate.
Qed.

Lemma decode_pcm_accepts_witness :
  decode_pcm [xff; xff; x00; x80; x07; x00] = Some [[-1; -32768]] /\
  well_shaped [[-1; -32768]].
Proof.
  assert (H : decode_pcm [xff; xff; x00; x80; x07; x00] = Some [[-1; -32768]])
    by reflexivity.
  split; [exact H|].
  exact (proj1 (proj2 (decode_pcm_accepts [xff; xff; x00; x80; x07; x00]) _ H)).
Defined.

(** ** Shape of what is queued and of what is played *)

Lemma in_removelast {A} (l : list A) (x : A) : In x (removelast l) -> In x l.
Proof.
  induction l as [|a [|b l] IH]; [intros [] | intros [] |].
  change (removelast (a :: b :: l)) with (a :: removelast (b :: l)).
  intros [->|H]; [left; reflexivity | right; apply IH; exact H].
Qed.

Lemma length_removelast_cons {A} (a : A) (l : list A) :
  length (removelast (a :: l)) = length l.
Proof.
  revert a. induction l as [|b l IH]; intros a; [reflexivity|].
  change (removelast (a :: b :: l)) with (a :: removelast (b :: l)).
  cbn [length]. rewrite IH. reflexivity.
Qed.

Lemma in_deque_appendleft {A} (maxlen : nat) (x y : A) (q : list A) :
  In y (deque_appendleft maxlen x q) -> y = x \/ In y q.
Proof.
  unfold deque_appendleft. intros H.
  assert (H' : In y (x :: q))
    by (destruct (maxlen <? length (x :: q))%nat;
        [apply in_removelast; exact H | exact H]).
  destruct H' as [->|H']; auto.
Qed.

Lemma well_shaped_skipn (c : Chunk) (frames : nat) :
  well_shaped c -> (frames < length c)%nat -> well_shaped (skipn frames c).
Proof.
  intros [_ Hrows] Hlt. split.
  - intros E. apply (f_equal (@length _)) in E.
    rewrite length_skipn in E. simpl in E. lia.
  - apply Forall_forall. intros row Hin. rewrite Forall_forall in Hrows.
    apply Hrows. exact (in_skipn _ _ _ Hin).
Qed.

Lemma receive_packet_well_shaped (st : State) (data : list byte) :
  Forall well_shaped (jitter_buffer st) ->
  Forall well_shaped (jitter_buffer (receive_packet st data)).
Proof.
  intros Hst. apply Forall_forall. intros c Hin.
  apply in_receive_packet in Hin as [Hin|[_ Hdec]].
  - rewrite Forall_forall in Hst. exact (Hst c Hin).
  - exact (proj1 (decode_pcm_shape _ _ Hdec)).
Qed.

Lemma audio_callback_well_shaped (st : State) (frames : nat) :
  Forall well_shaped (jitter_buffer st) ->
  Forall well_shaped (jitter_buffer (fst (audio_callback st frames))).
Proof.
  unfold audio_callback, callback_pop, callback_emit. intros Hst.
  destruct (jitter_buffer st) as [|c rest]; simpl; [constructor|].
  inversion Hst as [|? ? Hc Hrest]; subst.
  destruct (length c =? frames)%nat; simpl; [exact Hrest|].
  destruct (Nat.ltb_spec frames (length c)) as [Hlt|_]; simpl; [|exact Hrest].
  apply Forall_forall. intros x Hin.
  apply in_deque_appendleft in Hin as [->|Hin].
  - apply well_shaped_skipn; assumption.
  - rewrite Forall_forall in Hrest. exact (Hrest x Hin).
Qed.

Lemma run_well_shaped (evs : list Event) :
  forall st : State,
    Forall well_shaped (jitter_buffer st) ->
    Forall well_shaped (jitter_buffer (run st evs)).
Proof.
  induction evs as [|e evs IH]; intros st Hst; [exact Hst|].
  simpl. apply IH. destruct e as [data|frames|]; simpl.
  - destruct (running st); [apply receive_packet_well_shaped|]; exact Hst.
  - apply audio_callback_well_shaped. exact Hst.
  - exact Hst.
Qed.

(** X9. Whatever datagrams arrive and whenever the callback runs, every
    block in the jitter buffer has at least one row and exactly [CHANNELS]
    samples in each row: neither the receive loop nor the push-back of a
    remainder ever queues an empty or ragged block. *)
Theorem queued_blocks_well_shaped (evs : list Event) :
  Forall well_shaped (jitter_buffer (run initial_state evs)).
Proof. apply run_well_shaped. constructor. Qed.

Lemma audio_callback_output_shape (st : State) (frames : nat) :
  Forall well_shaped (jitter_buffer st) ->
  length (snd (audio_callback st frames)) = frames /\
  Forall (fun row => length row = CHANNELS) (snd (audio_callback st frames)).
Proof.
  assert (Hsil : length (silence frames) = frames /\
                 Forall (fun row => length row = CHANNELS) (silence frames)).
  { destruct (length_silence frames) as [Hl Hz]. split; [exact Hl|].
    eapply Forall_impl; [|exact Hz]. intros row ->. apply repeat_length. }
  unfold audio_callback, callback_pop, callback_emit. intros Hst.
  destruct (jitter_buffer st) as [|c rest]; simpl; [exact Hsil|].
  inversion Hst as [|? ? [_ Hrows] _]; subst.
  destruct (Nat.eqb_spec (length c) frames) as [E|_]; simpl; [auto|].
  destruct (Nat.ltb_spec frames (length c)) as [Hlt|_]; simpl; [|exact Hsil].
  split; [rewrite length_firstn; lia|].
  apply Forall_forall. intros row Hin. rewrite Forall_forall in Hrows.
  apply Hrows. exact (in_firstn _ _ _ Hin).
Qed.

(** X10. In every state a session can reach, and for every requested
    frame count, the callback fills the output with exactly [frames] rows
    of [CHANNELS] samples each, whichever of its three branches it takes. *)
Theorem callback_fills_output (evs : list Event) (frames : nat) :
  length (snd (audio_callback (run initial_state evs) frames)) = frames /\
  Forall (fun row => length row = CHANNELS)
    (snd (audio_callback (run initial_state evs) frames)).
Proof.
  apply audio_callback_output_shape. apply run_well_shaped. constructor.
Qed.

(** X11. The callback only ever touches the jitter buffer: [last_seq], the
    counters, the ready latch and [running] are as before, and the buffer
    loses at most one entry and never gains one. *)
Theorem callback_frame (st : State) (frames : nat) :
  stats (fst (audio_callback st frames)) = stats st /\
  buffer_ready (fst (audio_callback st frames)) = buffer_ready st /\
  running (fst (audio_callback st frames)) = running st /\
  (length (jitter_buffer st) - 1 <=
   length (jitter_buffer (fst (audio_callback st frames))) <=
   length (jitter_buffer st))%nat.
Proof.
  destruct (stats_audio_callback st frames) as [Hs Hr].
  split; [exact Hs|]. split; [apply audio_callback_ready|]. split; [exact Hr|].
  split; [|apply length_audio_callback].
  unfold audio_callback, callback_pop, callback_emit.
  destruct (jitter_buffer st) as [|c rest]; simpl; [lia|].
  destruct (length c =? frames)%nat; simpl; [lia|].
  destruct (frames <? length c)%nat; simpl; [|lia].
  unfold deque_appendleft.
  destruct (MAXLEN <? length (skipn frames c :: rest))%nat; [|simpl; lia].
  destruct rest as [|r rest]; [simpl; lia|].
  rewrite length_removelast_cons. simpl. lia.
Qed.

(** ** Bursts and oversize blocks *)

Lemma deque_append_window {A} (maxlen : nat) (x : A) (q : list A) :
  (length q <= maxlen)%nat ->
  deque_append maxlen x q = skipn (length (q ++ [x]) - maxlen) (q ++ [x]).
Proof.
  intros Hq. unfold deque_append.
  assert (Hl : length (q ++ [x]) = S (length q))
    by (rewrite length_app; simpl; lia).
  destruct (Nat.ltb_spec maxlen (length (q ++ [x]))) as [Hfull|Hroom].
  - replace (length (q ++ [x]) - maxlen)%nat with 1%nat by lia.
    destruct (q ++ [x]); reflexivity.
  - replace (length (q ++ [x]) - maxlen)%nat with 0%nat by lia. reflexivity.
Qed.

Lemma pushes_window (audios : list Chunk) :
  forall st : State,
    (length (jitter_buffer st) <= MAXLEN)%nat ->
    jitter_buffer (pushes st audios) =
    skipn (length (jitter_buffer st ++ audios) - MAXLEN) (jitter_buffer st ++ audios).
Proof.
  induction audios as [|a audios IH]; intros st Hq.
  - simpl. rewrite app_nil_r.
    replace (length (jitter_buffer st) - MAXLEN)%nat with 0%nat by lia. reflexivity.
  - change (pushes st (a :: audios)) with (pushes (push a st) audios).
    assert (Hq' : (length (jitter_buffer (push a st)) <= MAXLEN)%nat)
      by (rewrite jitter_buffer_push; apply length_deque_append; exact Hq).
    rewrite (IH (push a st) Hq').
    rewrite jitter_buffer_push, deque_append_window by exact Hq.
    set (L := jitter_buffer st ++ [a]).
    replace (jitter_buffer st ++ a :: audios) with (L ++ audios)
      by (unfold L; rewrite <- app_assoc; reflexivity).
    assert (Hd : (length L - MAXLEN <= length L)%nat) by lia.
    assert (Happ : skipn (length L - MAXLEN) L ++ audios =
                   skipn (length L - MAXLEN) (L ++ audios)).
    { rewrite skipn_app.
      replace (length L - MAXLEN - length L)%nat with 0%nat by lia. reflexivity. }
    rewrite Happ, skipn_skipn. f_equal.
    rewrite length_skipn, !length_app. lia.
Qed.

(** X12. A burst of pushes with no pop in between leaves the buffer
    holding the most recent [MAXLEN] blocks, oldest first: what was queued
    followed by what was pushed, with as many of the oldest entries cut off
    as exceed the cap. *)
Theorem burst_keeps_latest (st : State) (audios : list Chunk) :
  (length (jitter_buffer st) <= MAXLEN)%nat ->
  jitter_buffer (pushes st audios) =
  skipn (length (jitter_buffer st ++ audios) - MAXLEN) (jitter_buffer st ++ audios) /\
  length (jitter_buffer (pushes st audios)) =
  Nat.min (length (jitter_buffer st) + length audios) MAXLEN.
Proof.
  intros Hq. rewrite (pushes_window audios st Hq). split; [reflexivity|].
  rewrite length_skipn, length_app. lia.
Qed.

Lemma burst_keeps_latest_witness :
  (length (jitter_buffer initial_state) <= MAXLEN)%nat /\
  jitter_buffer (pushes initial_state (map (fun s => [[s; s]]) (Z_range 1 11))) =
  map (fun s => [[s; s]]) (Z_range 4 8).
Proof.
  assert (H : (length (jitter_buffer initial_state) <= MAXLEN)%nat)
    by (unfold MAXLEN; simpl; lia).
  split; [exact H|].
  exact (proj1 (burst_keeps_latest initial_state
                  (map (fun s => [[s; s]]) (Z_range 1 11)) H)).
Defined.

(** X13. A datagram carrying exactly one chunk ([CHUNK_BYTES] bytes after
    the header) decodes to a block of [BLOCKSIZE] rows, the frame count the
    output stream is opened with; when that block is at the head of the
    buffer the callback writes it out unchanged and removes it. *)
Theorem full_chunk_played_as_is (payload : list byte) :
  length payload = N.to_nat CHUNK_BYTES ->
  exists audio : Chunk,
    decode_pcm payload = Some audio /\
    length audio = N.to_nat BLOCKSIZE /\
    forall (st : State) (rest : list Chunk),
      jitter_buffer st = audio :: rest ->
      audio_callback st (N.to_nat BLOCKSIZE) = (set_jitter_buffer rest st, audio).
Proof.
  intros Hlen.
  assert (Heven : Nat.even (length payload) = true)
    by (rewrite Hlen; vm_compute; reflexivity).
  assert (Hmin : (2 * CHANNELS <= length payload)%nat)
    by (rewrite Hlen; apply Nat.leb_le; vm_compute; reflexivity).
  destruct (frombuffer_even payload Heven) as (samples & Hfb & Hl).
  destruct (decode_pcm_even payload samples Hfb) as (audio & Hd & _); [lia|].
  exists audio. split; [exact Hd|].
  assert (Hrows : length audio = N.to_nat BLOCKSIZE).
  { rewrite (proj2 (proj2 (decode_pcm_shape payload audio Hd))), Hlen.
    vm_compute. reflexivity. }
  split; [exact Hrows|].
  intros st rest Hq. rewrite <- Hrows. apply audio_callback_exact. exact Hq.
Qed.

Lemma full_chunk_played_as_is_witness :
  length (repeat x00 (N.to_nat CHUNK_BYTES)) = N.to_nat CHUNK_BYTES /\
  exists audio : Chunk,
    decode_pcm (repeat x00 (N.to_nat CHUNK_BYTES)) = Some audio /\
    length audio = N.to_nat BLOCKSIZE.
Proof.
  assert (H : length (repeat x00 (N.to_nat CHUNK_BYTES)) = N.to_nat CHUNK_BYTES)
    by (vm_compute; reflexivity).
  split; [exact H|].
  destruct (full_chunk_played_as_is (repeat x00 (N.to_nat CHUNK_BYTES)) H)
    as (audio & Hd & Hl & _).
  exists audio. split; [exact Hd | exact Hl].
Defined.

Lemma audio_callback_branches (st : State) (c : Chunk) (rest : list Chunk)
    (frames : nat) :
  jitter_buffer st = c :: rest ->
  ((frames < length c)%nat -> (length rest < MAXLEN)%nat ->
   audio_callback st frames =
   (set_jitter_buffer (skipn frames c :: rest) st, firstn frames c)) /\
  ((length c < frames)%nat ->
   audio_callback st frames = (set_jitter_buffer rest st, silence frames)).
Proof.
  intros Hq. unfold audio_callback, callback_pop, callback_emit.
  rewrite Hq. cbn [deque_popleft]. split.
  - intros Hlt Hroom.
    destruct (Nat.eqb_spec (length c) frames) as [|_]; [lia|].
    destruct (Nat.ltb_spec frames (length c)) as [_|]; [|lia].
    cbn [jitter_buffer set_jitter_buffer].
    rewrite deque_appendleft_room by exact Hroom. reflexivity.
  - intros Hlt.
    destruct (Nat.eqb_spec (length c) frames) as [|_]; [lia|].
    destruct (Nat.ltb_spec frames (length c)) as [|_]; [lia|]. reflexivity.
Qed.

(** X14. Two successive callbacks on a head block longer than requested:
    the first writes its first [frames] rows and pushes the rest back.  If
    the rest is shorter than [frames] the second callback throws it away and
    writes silence; if it is exactly [frames] rows it is written out; if it
    is longer, its first [frames] rows are written and the remainder goes
    back to the head again. *)
Theorem oversize_then_next_period (st : State) (c : Chunk) (rest : list Chunk)
    (frames : nat) :
  jitter_buffer st = c :: rest ->
  (length (jitter_buffer st) <= MAXLEN)%nat ->
  (frames < length c)%nat ->
  ((length c < frames + frames)%nat ->
   callbacks st [frames; frames] =
   (set_jitter_buffer rest st, [firstn frames c; silence frames])) /\
  (length c = (frames + frames)%nat ->
   callbacks st [frames; frames] =
   (set_jitter_buffer rest st, [firstn frames c; skipn frames c])) /\
  ((frames + frames < length c)%nat ->
   callbacks st [frames; frames] =
   (set_jitter_buffer (skipn (frames + frames) c :: rest) st,
    [firstn frames c; firstn frames (skipn frames c)])).
Proof.
  intros Hq Hcap Hlt.
  assert (Hroom : (length rest < MAXLEN)%nat) by (rewrite Hq in Hcap; exact Hcap).
  pose proof (proj1 (audio_callback_branches st c rest frames Hq) Hlt Hroom) as E1.
  set (st1 := set_jitter_buffer (skipn frames c :: rest) st) in *.
  assert (Hq1 : jitter_buffer st1 = skipn frames c :: rest) by reflexivity.
  assert (Hrem : length (skipn frames c) = (length c - frames)%nat)
    by apply length_skipn.
  cbn [callbacks]. rewrite E1.
  split; [|split]; intros Hcase.
  - rewrite (proj2 (audio_callback_branches st1 _ rest frames Hq1)) by lia.
    reflexivity.
  - pose proof (audio_callback_exact st1 _ rest Hq1) as E2.
    rewrite Hrem in E2. replace (length c - frames)%nat with frames in E2 by lia.
    rewrite E2. reflexivity.
  - rewrite (proj1 (audio_callback_branches st1 _ rest frames Hq1)) by lia.
    rewrite skipn_skipn. reflexivity.
Qed.

Lemma oversize_then_next_period_witness :
  jitter_buffer (set_jitter_buffer [[[1; 2]; [3; 4]; [5; 6]]; [[7; 8]; [9; 10]]]
                   initial_state)
  = [[1; 2]; [3; 4]; [5; 6]] :: [[[7; 8]; [9; 10]]] /\
  callbacks (set_jitter_buffer [[[1; 2]; [3; 4]; [5; 6]]; [[7; 8]; [9; 10]]]
               initial_state) [2%nat; 2%nat]
  = (set_jitter_buffer [[[7; 8]; [9; 10]]] initial_state,
     [[[1; 2]; [3; 4]]; [[0; 0]; [0; 0]]]).
Proof.
  assert (Hq : jitter_buffer
            (set_jitter_buffer [[[1; 2]; [3; 4]; [5; 6]]; [[7; 8]; [9; 10]]]
               initial_state)
          = [[1; 2]; [3; 4]; [5; 6]] :: [[[7; 8]; [9; 10]]]) by reflexivity.
  split; [exact Hq|].
  refine (proj1 (oversize_then_next_period _ _ _ 2%nat Hq _ _) _).
  - unfold MAXLEN. simpl. lia.
  - simpl. lia.
  - simpl. lia.
Defined.

(** ** Stop and start of playback *)

Lemma step_stopped (st : State) (e : Event) :
  running st = false ->
  running (step st e) = false /\ stats (step st e) = stats st /\
  (forall data, e = Recv data -> step st e = st).
Proof.
  intros Hr. destruct e as [data|frames|]; simpl.
  - rewrite Hr. auto.
  - destruct (stats_audio_callback st frames) as [Hs Hrun].
    rewrite Hrun, Hs. repeat split; [exact Hr | discriminate].
  - repeat split. discriminate.
Qed.

Lemma run_stopped (evs : list Event) :
  forall st : State,
    running st = false ->
    running (run st evs) = false /\ stats (run st evs) = stats st.
Proof.
  induction evs as [|e evs IH]; intros st Hr; [auto|].
  simpl. destruct (step_stopped st e Hr) as (Hr' & Hs' & _).
  destruct (IH (step st e) Hr') as [Hr2 Hs2]. rewrite Hs2, Hs'. auto.
Qed.


Lemma running_no_shutdown (evs : list Event) :
  forall st : State, running (run st evs) = true -> streaming evs.
Proof.
  induction evs as [|e evs IH]; intros st Hr; [reflexivity|].
  simpl in Hr. unfold streaming. simpl.
  destruct e as [data|frames|]; simpl;
    try (apply (IH _ Hr)).
  destruct (run_stopped evs (shutdown st) eq_refl) as [Hstop _].
  simpl in Hr. rewrite Hstop in Hr. discriminate.
Qed.

(** X16. The condition under which [main] opens the output stream (latch
    set and [running] still true) holds only after an actual fill: no stop
    request has been made, and at some earlier point of the session the
    buffer held at least [BUFFER_CHUNKS] blocks.  A session that has been
    stopped never meets the condition again. *)
Theorem playback_needs_fill :
  (forall evs : list Event,
      playback_starts (run initial_state evs) = true ->
      streaming evs /\
      exists pre post : list Event,
        evs = pre ++ post /\
        (BUFFER_CHUNKS <= length (jitter_buffer (run initial_state pre)))%nat) /\
  (forall evs1 evs2 : list Event,
      playback_starts (run initial_state (evs1 ++ Shutdown :: evs2)) = false).
Proof.
  split.
  - intros evs H. unfold playback_starts in H.
    apply andb_true_iff in H as [Hready Hrun].
    pose proof (running_no_shutdown evs initial_state Hrun) as Hs.
    split; [exact Hs|]. apply (ready_iff_filled evs Hs). exact Hready.
  - intros evs1 evs2. unfold playback_starts. rewrite run_app.
    change (run (run initial_state evs1) (Shutdown :: evs2))
      with (run (shutdown (run initial_state evs1)) evs2).
    rewrite (proj1 (run_stopped evs2 (shutdown (run initial_state evs1)) eq_refl)).
    apply andb_false_r.
Qed.

Lemma playback_needs_fill_witness :
  playback_starts
    (run initial_state [Recv (packet 0 [x01; x00; x02; x00]);
                        Recv (packet 1 [x03; x00; x04; x00])]) = true /\
  streaming [Recv (packet 0 [x01; x00; x02; x00]);
             Recv (packet 1 [x03; x00; x04; x00])].
Proof.
  assert (H : playback_starts
    (run initial_state [Recv (packet 0 [x01; x00; x02; x00]);
                        Recv (packet 1 [x03; x00; x04; x00])]) = true)
    by reflexivity.
  split; [exact H|].
  exact (proj1 (proj1 playback_needs_fill _ H)).
Defined.

(** ** [get_local_ips] *)

Lemma in_append_new (ips : list String.string) (ip x : String.string) :
  In x (append_new ips ip) <-> In x ips \/ x = ip.
Proof.
  unfold append_new. destruct (in_dec String.string_dec ip ips) as [Hin|Hout].
  - split; [auto|]. intros [H| ->]; assumption.
  - rewrite in_app_iff. simpl. split.
    + intros [H|[<-|[]]]; auto.
    + intros [H| ->]; auto.
Qed.

Lemma NoDup_append_new (ips : list String.string) (ip : String.string) :
  NoDup ips -> NoDup (append_new ips ip).
Proof.
  intros Hnd. unfold append_new.
  destruct (in_dec String.string_dec ip ips) as [Hin|Hout]; [exact Hnd|].
  apply NoDup_app; [exact Hnd | repeat constructor; intros [] |].
  intros a Ha [<-|[]]. exact (Hout Ha).
Qed.

Lemma collect_ips (infos : list String.string) :
  forall acc : list String.string,
    let ips := fold_left
                 (fun ips ip => if ipv4_non_loopback ip then append_new ips ip else ips)
                 infos acc in
    (NoDup acc -> NoDup ips) /\
    (forall x, In x ips <-> In x acc \/ (In x infos /\ ipv4_non_loopback x = true)).
Proof.
  induction infos as [|ip infos IH]; intros acc; cbn zeta.
  - simpl. split; [auto|]. intros x. split; [auto|]. intros [H|[[] _]]. exact H.
  - cbn [fold_left].
    destruct (IH (if ipv4_non_loopback ip then append_new acc ip else acc))
      as [Hnd Hin].
    split.
    + intros Hacc. apply Hnd.
      destruct (ipv4_non_loopback ip); [apply NoDup_append_new|]; exact Hacc.
    + intros x. rewrite Hin. clear Hin Hnd IH.
      destruct (ipv4_non_loopback ip) eqn:Hf.
      * rewrite in_append_new. simpl. split.
        -- intros [[H| ->]|[H1 H2]]; auto.
        -- intros [H|[[<-|H1] H2]]; auto.
      * simpl. split.
        -- intros [H|[H1 H2]]; auto.
        -- intros [H|[[<-|H1] H2]]; auto. congruence.
Qed.

Lemma gathered_ips (addrinfo : option (list String.string))
    (connected : option String.string) :
  exists ips : list String.string,
    get_local_ips addrinfo connected =
      match ips with
      | [] => ["(could not determine)"%string]
      | _ => ips
      end /\
    NoDup ips /\
    (forall x, In x ips <-> found_ip addrinfo connected x).
Proof.
  unfold get_local_ips, found_ip.
  set (first := match addrinfo with
                | Some infos =>
                    fold_left
                      (fun ips ip =>
                         if ipv4_non_loopback ip then append_new ips ip else ips)
                      infos []
                | None => []
                end).
  assert (Hfirst : NoDup first /\
                   forall x, In x first <->
                     exists infos, addrinfo = Some infos /\ In x infos /\
                                   ipv4_non_loopback x = true).
  { unfold first. destruct addrinfo as [infos|].
    - destruct (collect_ips infos []) as [Hnd Hin]. cbn zeta in Hnd, Hin.
      split; [apply Hnd; constructor|].
      intros x. rewrite Hin. split.
      + intros [[]|H]. exists infos. auto.
      + intros (infos' & E & H). injection E as <-. auto.
    - split; [constructor|]. intros x. split; [intros [] |].
      intros (infos & E & _). discriminate. }
  destruct Hfirst as [Hnd Hin].
  exists (match connected with Some ip => append_new first ip | None => first end).
  split; [reflexivity|]. split.
  - destruct connected; [apply NoDup_append_new|]; exact Hnd.
  - intros x. destruct connected as [ip|].
    + rewrite in_append_new, Hin. split.
      * intros [H| ->]; auto.
      * intros [H|E]; [auto | injection E as ->; auto].
    + rewrite Hin. split; [auto|]. intros [H|E]; [exact H | discriminate].
Qed.

(** X17. Whatever the two system queries return or raise, the list
    [get_local_ips] returns is never empty and holds no address twice. *)
Theorem get_local_ips_nonempty_nodup (addrinfo : option (list String.string))
    (connected : option String.string) :
  get_local_ips addrinfo connected <> [] /\
  NoDup (get_local_ips addrinfo connected).
Proof.
  destruct (gathered_ips addrinfo connected) as (ips & -> & Hnd & _).
  destruct ips as [|ip ips].
  - split; [discriminate|]. repeat constructor. intros [].
  - split; [discriminate | exact Hnd].
Qed.

(** X18. The addresses returned are exactly the ones found: those
    [getaddrinfo] listed that do not start with [127.] and contain no colon,
    and the one the connect trick read back (which is not filtered).  The
    placeholder is returned, alone, exactly when nothing was found. *)
Theorem get_local_ips_members (addrinfo : option (list String.string))
    (connected : option String.string) (ip : String.string) :
  In ip (get_local_ips addrinfo connected) <->
  found_ip addrinfo connected ip \/
  (ip = "(could not determine)"%string /\
   forall x, ~ found_ip addrinfo connected x).
Proof.
  destruct (gathered_ips addrinfo connected) as (ips & -> & _ & Hin).
  destruct ips as [|a ips].
  - split.
    + intros [<-|[]]. right. split; [reflexivity|].
      intros x Hx. apply Hin in Hx. exact Hx.
    + intros [H|[-> _]]; [apply Hin in H; destruct H | left; reflexivity].
  - rewrite Hin. split; [auto|].
    intros [H|[_ Hnone]]; [exact H|].
    exfalso. apply (Hnone a). apply Hin. left. reflexivity.
Qed.

(** ** From the wire to the output *)







